(** * RepoProtector: the configuration workflow engine, embedded in Rocq

    The development follows the TypeScript sources:
    - [api/github.ts]: [extractEnabled], [transformProtectionResponse],
      [getBranchProtection], the [cleanInput] record of
      [updateBranchProtection], [applyProtectionToMultiple];
    - [components/PreviewPane.ts]: [diffProtection], [formatValue], the
      counters of [renderResults];
    - [components/ProtectionEditor.ts]: the editor state, [buildFields],
      [updateProtectionFromField], the workflow modal, [handleKey], the
      handlers of the two input widgets, [setProtection];
    - [components/RepoSelector.ts]: the selection list;
    - [utils/templates.ts]: [loadTemplate], [saveTemplate],
      [deleteTemplate], [initializeDefaultTemplates];
    - [app.ts]: the screen state, its selection callbacks and the key
      handlers of the screens.

    Configurations are plain JavaScript objects at run time (the TypeScript
    types are erased), so they are modelled as JavaScript values, and an
    object as the list of its properties.  The state objects of the editor
    and of the application are records passed from one operation to the
    next.  The remote service is a world threaded through the calls of
    [ghApi].  An operation that can throw returns an [option] or a
    [Completion]; the widget tree, the footer text and the log are left
    out. *)

From Stdlib Require Import ZArith List String Ascii Bool Lia.
From Stdlib Require Import Numbers.DecimalString.
From stdpp Require Import base option list gmap strings.
Import ListNotations.

#[local] Set Warnings "-register-all".
Local Open Scope string_scope.
Local Open Scope list_scope.

(** ** JavaScript values *)

Module JS.

(** The values a configuration is made of.  Numbers are the integers (the
    only numbers the program computes with are counts and indices) and
    [Infinity], which [parseInt] gives for a long run of digits and the
    editor stores; [NaN] and [-Infinity] are results of [parseInt] only.
    An object is the list of its own properties in property order. *)
Inductive JSVal : Type :=
| JUndefined
| JNull
| JBool (b : bool)
| JNum (n : Z)
| JStr (s : string)
| JArr (items : list JSVal)
| JObj (props : list (string * JSVal))
| JInfinity.

Definition JSObject : Type := list (string * JSVal).

(** [obj[key]] on an object: the property's value, [undefined] when there is
    no such property. *)
Fixpoint get (key : string) (o : JSObject) : JSVal :=
  match o with
  | [] => JUndefined
  | (k, v) :: rest => if String.eqb k key then v else get key rest
  end.

(** [key in obj] *)
Fixpoint has (key : string) (o : JSObject) : bool :=
  match o with
  | [] => false
  | (k, _) :: rest => if String.eqb k key then true else has key rest
  end.

(** [obj[key] = v]: an existing property keeps its place, a new one goes
    last. *)
Fixpoint set (key : string) (v : JSVal) (o : JSObject) : JSObject :=
  match o with
  | [] => [(key, v)]
  | (k, w) :: rest =>
      if String.eqb k key then (k, v) :: rest else (k, w) :: set key v rest
  end.

(** A set in insertion order, as [new Set(iterable)] builds it: every
    element once, at the place of its first occurrence. *)
Definition set_add (acc : list string) (x : string) : list string :=
  if existsb (String.eqb x) acc then acc else acc ++ [x].

Definition Set_of (l : list string) : list string := fold_left set_add l [].

(** [Object.keys(obj)] *)
Definition Object_keys (o : JSObject) : list string := Set_of (map fst o).

(** Truthiness: [undefined], [null], [false], [0] and the empty string are
    falsy. *)
Definition truthy (v : JSVal) : bool :=
  match v with
  | JUndefined | JNull => false
  | JBool b => b
  | JNum n => negb (Z.eqb n 0)
  | JStr s => negb (String.eqb s "")
  | JArr _ | JObj _ | JInfinity => true
  end.

Definition is_undefined (v : JSVal) : bool :=
  match v with JUndefined => true | _ => false end.

Definition nullish (v : JSVal) : bool :=
  match v with JUndefined | JNull => true | _ => false end.

(** [a ?? b] *)
Definition coalesce (a b : JSVal) : JSVal := if nullish a then b else a.

(** What a [throw] raises and a [catch] clause receives: an [Error] with
    its message, or any other value. *)
Inductive Thrown : Type :=
| ErrorObject (message : string)
| OtherValue.

(** A computation that returns or throws. *)
Inductive Completion (A : Type) : Type :=
| Normal (a : A)
| Throw (e : Thrown).
Arguments Normal {A} a.
Arguments Throw {A} e.

(** The TypeError of the engine; its message is the engine's own and
    mentions neither [404] nor [Not Found]. *)
Definition TypeError : Thrown := ErrorObject "TypeError".

(** [value.key] for the property names this program reads (none of them is
    a member of a built-in prototype): reading a property of [null] or
    [undefined] throws a TypeError, a primitive or an array has no such
    property. *)
Definition member (value : JSVal) (key : string) : Completion JSVal :=
  match value with
  | JUndefined | JNull => Throw TypeError
  | JObj o => Normal (get key o)
  | _ => Normal JUndefined
  end.

(** [value.key] on a value that is neither [null] nor [undefined]. *)
Definition prop (value : JSVal) (key : string) : JSVal :=
  match value with
  | JObj o => get key o
  | _ => JUndefined
  end.

(** *** Strings *)

(** The white space and line terminators of JavaScript, as the UTF-8 bytes
    of each character: tab, line feed, vertical tab, form feed, carriage
    return, space, U+00A0, U+1680, U+2000 to U+200A, U+2028, U+2029,
    U+202F, U+205F, U+3000 and U+FEFF. *)
Definition bytes (l : list nat) : string :=
  string_of_list_ascii (map ascii_of_nat l).

Definition white_space : list string :=
  map bytes
    ([ [9]; [10]; [11]; [12]; [13]; [32]; [194; 160]; [225; 154; 128] ]
     ++ map (fun n => [226; 128; n]) (seq 128 11)
     ++ [ [226; 128; 168]; [226; 128; 169]; [226; 128; 175];
          [226; 129; 159]; [227; 128; 128]; [239; 187; 191] ]).

(** [Some rest] when [s] is [p] followed by [rest]. *)
Fixpoint strip_prefix (p s : string) : option string :=
  match p, s with
  | EmptyString, _ => Some s
  | String a p', String b s' =>
      if Ascii.eqb a b then strip_prefix p' s' else None
  | String _ _, EmptyString => None
  end.

Fixpoint strip_any (ps : list string) (s : string) : option string :=
  match ps with
  | [] => None
  | p :: rest =>
      match strip_prefix p s with
      | Some r => Some r
      | None => strip_any rest s
      end
  end.

Fixpoint trim_loop (ws : list string) (fuel : nat) (s : string) : string :=
  match fuel with
  | O => s
  | S fuel' =>
      match strip_any ws s with
      | Some r => trim_loop ws fuel' r
      | None => s
      end
  end.

Definition reverse_string (s : string) : string :=
  string_of_list_ascii (rev (list_ascii_of_string s)).

(** [s.trimStart()], [s.trimEnd()], [s.trim()] *)
Definition trimStart (s : string) : string :=
  trim_loop white_space (String.length s) s.

Definition trimEnd (s : string) : string :=
  reverse_string
    (trim_loop (map reverse_string white_space) (String.length s)
       (reverse_string s)).

Definition trim (s : string) : string := trimEnd (trimStart s).

(** [s.split(',')]: the pieces between the commas; [cur] is the piece
    being read. *)
Fixpoint split_loop (cur : string) (s : string) : list string :=
  match s with
  | EmptyString => [cur]
  | String c rest =>
      if Ascii.eqb c ","%char
      then cur :: split_loop "" rest
      else split_loop (cur +:+ String c "") rest
  end.

Definition split_comma (s : string) : list string := split_loop "" s.

(** [s.includes(sub)] *)
Fixpoint String_includes (sub s : string) : bool :=
  match strip_prefix sub s with
  | Some _ => true
  | None =>
      match s with
      | EmptyString => false
      | String _ rest => String_includes sub rest
      end
  end.

(** The decimal digits [s] starts with, and their value read after the
    digits of value [acc]. *)
Definition digit_of (c : ascii) : option Z :=
  let n := nat_of_ascii c in
  if Nat.leb 48 n && Nat.leb n 57 then Some (Z.of_nat (n - 48)) else None.

Fixpoint digits_value (acc : Z) (s : string) : Z :=
  match s with
  | EmptyString => acc
  | String c rest =>
      match digit_of c with
      | Some d => digits_value (10 * acc + d) rest
      | None => acc
      end
  end.

Definition starts_with_digit (s : string) : bool :=
  match s with
  | String c _ => match digit_of c with Some _ => true | None => false end
  | EmptyString => false
  end.

(** A text of decimal digits only. *)
Fixpoint decimal_digits (s : string) : bool :=
  match s with
  | EmptyString => true
  | String c rest =>
      match digit_of c with Some _ => decimal_digits rest | None => false end
  end.

(** The numbers that [parseInt] gives: [NaN], a double that is an integer,
    and the two infinities. *)
Inductive JSNumber : Type :=
| NaN
| Finite (n : Z)
| Infinite (negative : bool).

(** The double nearest to the natural number [n], a tie going to the even
    mantissa; [None] when that is [Infinity].  A double has 53 binary
    digits, so a number below [2^53] is its own double. *)
Definition nearest_double (n : Z) : option Z :=
  if (n <? 2 ^ 53)%Z then Some n
  else
    let e := (Z.log2 n - 52)%Z in
    let q := Z.shiftr n e in
    let r := (n - Z.shiftl q e)%Z in
    let half := Z.shiftl 1 (e - 1) in
    let q' :=
      if (half <? r)%Z || ((r =? half)%Z && Z.odd q) then (q + 1)%Z else q in
    let v := Z.shiftl q' e in
    if (v <? 2 ^ 1024)%Z then Some v else None.

(** What [parseInt(s, 10)] reads of a text: leading white space is
    skipped, then an optional sign is read ([true] for a minus), then the
    longest run of decimal digits, and what follows it is ignored; [None]
    when there is no digit. *)
Definition leading_number (s : string) : option (bool * Z) :=
  let t := trimStart s in
  let signed :=
    match t with
    | String c rest =>
        if Ascii.eqb c "-"%char then (true, rest)
        else if Ascii.eqb c "+"%char then (false, rest)
        else (false, t)
    | EmptyString => (false, t)
    end in
  if starts_with_digit (snd signed)
  then Some (fst signed, digits_value 0 (snd signed))
  else None.

(** [parseInt(s, 10)]: the double nearest to the number read, with the
    sign, and [NaN] when there is no digit.  (The engines round the whole
    run of digits correctly; the standard would let them drop the digits
    after the twentieth.) *)
Definition parseInt (s : string) : JSNumber :=
  match leading_number s with
  | Some (negative, n) =>
      match nearest_double n with
      | Some number => Finite (if negative then - number else number)
      | None => Infinite negative
      end
  | None => NaN
  end.

(** *** [JSON.stringify] *)

Definition quote_char : ascii := ascii_of_nat 34.
Definition backslash : ascii := ascii_of_nat 92.

Definition hex_digit (n : nat) : ascii :=
  ascii_of_nat (if Nat.ltb n 10 then 48 + n else 87 + n).

(** One character of a JSON string literal: the quote, the backslash and
    the control characters are escaped, every other byte is kept. *)
Definition escape_char (c : ascii) : string :=
  let n := nat_of_ascii c in
  if Nat.eqb n 34 then String backslash (String quote_char "")
  else if Nat.eqb n 92 then String backslash (String backslash "")
  else if Nat.eqb n 8 then String backslash "b"
  else if Nat.eqb n 12 then String backslash "f"
  else if Nat.eqb n 10 then String backslash "n"
  else if Nat.eqb n 13 then String backslash "r"
  else if Nat.eqb n 9 then String backslash "t"
  else if Nat.ltb n 32
       then String backslash
              ("u00" +:+ String (hex_digit (n / 16)) (String (hex_digit (n mod 16)) ""))
  else String c "".

Fixpoint escape (s : string) : string :=
  match s with
  | EmptyString => ""
  | String c rest => escape_char c +:+ escape rest
  end.

Definition quote (s : string) : string :=
  String quote_char (escape s +:+ String quote_char "").

(** Decimal notation of an integer. *)
Definition Number_toString (n : Z) : string :=
  NilZero.string_of_int (Z.to_int n).

(** [parts.join(sep)] on strings *)
Fixpoint join_strings (sep : string) (parts : list string) : string :=
  match parts with
  | [] => ""
  | [p] => p
  | p :: rest => p +:+ sep +:+ join_strings sep rest
  end.

(** [JSON.stringify(v)]; [None] is the [undefined] it returns for
    [undefined].  In an array [undefined] is written [null], in an object a
    property whose value is [undefined] is left out; [Infinity] is written
    [null]. *)
Fixpoint stringify (v : JSVal) : option string :=
  match v with
  | JUndefined => None
  | JNull => Some "null"
  | JBool b => Some (if b then "true" else "false")
  | JNum n => Some (Number_toString n)
  | JStr s => Some (quote s)
  | JArr items =>
      let fix elements (l : list JSVal) : list string :=
        match l with
        | [] => []
        | x :: rest =>
            match stringify x with
            | Some s => s
            | None => "null"
            end :: elements rest
        end in
      Some ("[" +:+ join_strings "," (elements items) +:+ "]")
  | JObj props =>
      let fix members (l : list (string * JSVal)) : list string :=
        match l with
        | [] => []
        | (k, x) :: rest =>
            match stringify x with
            | Some s => (quote k +:+ ":" +:+ s) :: members rest
            | None => members rest
            end
        end in
      Some ("{" +:+ join_strings "," (members props) +:+ "}")
  | JInfinity => Some "null"
  end.

(** [String(v)], as [Array.prototype.join] converts an element ([null] and
    [undefined] elements are written as the empty string there). *)
Fixpoint toString (v : JSVal) : string :=
  match v with
  | JUndefined => "undefined"
  | JNull => "null"
  | JBool b => if b then "true" else "false"
  | JNum n => Number_toString n
  | JStr s => s
  | JArr items =>
      let fix elements (l : list JSVal) : list string :=
        match l with
        | [] => []
        | x :: rest => (if nullish x then "" else toString x) :: elements rest
        end in
      join_strings "," (elements items)
  | JObj _ => "[object Object]"
  | JInfinity => "Infinity"
  end.

(** [items.join(sep)] *)
Definition Array_join (sep : string) (items : list JSVal) : string :=
  join_strings sep (map (fun x => if nullish x then "" else toString x) items).

(** [items.includes(name)] for a string [name] *)
Definition Array_includes (name : string) (items : list JSVal) : bool :=
  existsb (fun x => match x with JStr s => String.eqb s name | _ => false end)
    items.

(** What [JSON.parse] reads back from what [JSON.stringify] wrote;
    [Infinity] is written as [null]. *)
Fixpoint JSON_roundtrip (v : JSVal) : JSVal :=
  match v with
  | JArr items =>
      let fix elements (l : list JSVal) : list JSVal :=
        match l with
        | [] => []
        | x :: rest =>
            (if is_undefined x then JNull else JSON_roundtrip x) :: elements rest
        end in
      JArr (elements items)
  | JObj props =>
      let fix members (l : list (string * JSVal)) : list (string * JSVal) :=
        match l with
        | [] => []
        | (k, x) :: rest =>
            if is_undefined x then members rest
            else (k, JSON_roundtrip x) :: members rest
        end in
      JObj (members props)
  | JInfinity => JNull
  | _ => v
  end.

(** [a !== b] on the results of [JSON.stringify] *)
Definition differ (a b : option string) : bool :=
  match a, b with
  | None, None => false
  | Some x, Some y => negb (String.eqb x y)
  | _, _ => true
  end.

End JS.
Import JS.

(** ** api/github.ts: normalising a protection response *)

Definition extractEnabled (value : JSVal) : JSVal :=
  match value with
  | JNull | JUndefined => JNull
  | JObj o => if has "enabled" o then get "enabled" o else value
  | _ => value
  end.

(** [raw.key], then the rest of the computation. *)
Definition read (raw : JSVal) (key : string) (k : JSVal -> Completion JSObject)
  : Completion JSObject :=
  match member raw key with
  | Normal v => k v
  | Throw m => Throw m
  end.

Definition transformProtectionResponse (raw : JSVal) : Completion JSObject :=
  read raw "url" (fun url =>
  read raw "required_pull_request_reviews" (fun rpr =>
  read raw "required_status_checks" (fun rsc =>
  read raw "enforce_admins" (fun enforce_admins =>
  read raw "required_linear_history" (fun required_linear_history =>
  read raw "allow_force_pushes" (fun allow_force_pushes =>
  read raw "allow_deletions" (fun allow_deletions =>
  read raw "block_creations" (fun block_creations =>
  read raw "required_conversation_resolution" (fun rcr =>
  read raw "restrictions" (fun restrictions =>
  read raw "required_signatures" (fun required_signatures =>
  read raw "lock_branch" (fun lock_branch =>
  Normal
    [ ("url", url);
      ("required_pull_request_reviews", rpr);
      ("required_status_checks", rsc);
      ("enforce_admins", extractEnabled enforce_admins);
      ("required_linear_history", extractEnabled required_linear_history);
      ("allow_force_pushes", extractEnabled allow_force_pushes);
      ("allow_deletions", extractEnabled allow_deletions);
      ("block_creations", extractEnabled block_creations);
      ("required_conversation_resolution", extractEnabled rcr);
      ("restrictions", restrictions);
      ("required_signatures",
        if truthy required_signatures
        then JObj [("enabled", extractEnabled required_signatures)]
        else JNull);
      ("lock_branch", extractEnabled lock_branch) ])))))))))))).

(** The six boolean toggles of a configuration. *)
Definition boolean_flags : list string :=
  [ "enforce_admins"; "required_linear_history"; "allow_force_pushes";
    "allow_deletions"; "block_creations"; "required_conversation_resolution" ].

(** The read-only fields of a live configuration. *)
Definition live_only_fields : list string :=
  [ "url"; "required_signatures"; "lock_branch" ].

(** The [cleanInput] record that [updateBranchProtection] submits. *)
Definition cleanInput (protection : JSObject) : JSObject :=
  [ ("required_pull_request_reviews",
      coalesce (get "required_pull_request_reviews" protection) JNull);
    ("required_status_checks",
      coalesce (get "required_status_checks" protection) JNull);
    ("enforce_admins", coalesce (get "enforce_admins" protection) (JBool false));
    ("required_linear_history",
      coalesce (get "required_linear_history" protection) (JBool false));
    ("allow_force_pushes",
      coalesce (get "allow_force_pushes" protection) (JBool false));
    ("allow_deletions", coalesce (get "allow_deletions" protection) (JBool false));
    ("block_creations", coalesce (get "block_creations" protection) (JBool false));
    ("required_conversation_resolution",
      coalesce (get "required_conversation_resolution" protection) (JBool true));
    ("restrictions", coalesce (get "restrictions" protection) JNull) ].

(** The type [boolean | undefined] that [BranchProtectionInput] gives each
    toggle. *)
Definition optional_boolean (v : JSVal) : bool :=
  match v with
  | JUndefined | JBool _ => true
  | _ => false
  end.

Definition typed_flags (c : JSObject) : bool :=
  forallb (fun k => optional_boolean (get k c)) boolean_flags.

(** A toggle that is not in the nested form of the remote service: any
    value but an object with an [enabled] property. *)
Definition plain_flag (v : JSVal) : bool :=
  match v with
  | JObj o => negb (has "enabled" o)
  | _ => true
  end.

Definition plain_flags (c : JSObject) : bool :=
  forallb (fun k => plain_flag (get k c)) boolean_flags.

(** ** types.ts: the records the batch works with *)

(** A repository, with the fields the program reads. *)
Record Repository : Type := mkRepository {
  name : string;
  full_name : string;
  owner_login : string
}.

Record ApplyResult : Type := mkApplyResult {
  repo : Repository;
  branch : string;
  success : bool;
  error : option string
}.

(** One element of the [targets] argument. *)
Record Target : Type := mkTarget {
  target_owner : string;
  target_repo : string;
  target_branch : string
}.

(** ** api/github.ts: the remote calls *)

(** How a call of [ghApi] ends. *)
Inductive ApiOutcome : Type :=
| Returned (value : JSVal)
| Threw (e : Thrown).

(** The requests the program sends; the endpoint string is kept as its
    parts. *)
Inductive Request : Type :=
| GetProtection (owner repo branch : string)
| PutProtection (owner repo branch : string) (body : JSObject).

(** [error instanceof Error ? error.message : fallback] *)
Definition message_of (e : Thrown) (fallback : string) : string :=
  match e with
  | ErrorObject message => message
  | OtherValue => fallback
  end.

Section Remote.

(** The state of the remote service and of the [gh] process. *)
Variable World : Type.
Variable ghApi : World -> Request -> World * ApiOutcome.

(** The [catch] clause of [getBranchProtection]. *)
Definition not_found_or_rethrow (e : Thrown) : Completion (option JSObject) :=
  let msg := message_of e "" in
  if String_includes "404" msg || String_includes "Not Found" msg
  then Normal None
  else Throw e.

Definition getBranchProtection (w : World) (owner repo branch : string)
  : World * Completion (option JSObject) :=
  let (w', outcome) := ghApi w (GetProtection owner repo branch) in
  match outcome with
  | Returned raw =>
      match transformProtectionResponse raw with
      | Normal live => (w', Normal (Some live))
      | Throw e => (w', not_found_or_rethrow e)
      end
  | Threw e => (w', not_found_or_rethrow e)
  end.

Definition updateBranchProtection (w : World) (owner repo branch : string)
    (protection : JSObject) : World * ApiOutcome :=
  ghApi w (PutProtection owner repo branch (cleanInput protection)).

(** The body of the loop of [applyProtectionToMultiple]: one call, one
    result pushed, whether the call returns or throws. *)
Definition apply_target (protection : JSObject)
    (acc : World * list ApplyResult) (target : Target)
  : World * list ApplyResult :=
  let (w, results) := acc in
  let (w', outcome) :=
    updateBranchProtection w (target_owner target) (target_repo target)
      (target_branch target) protection in
  let repository :=
    mkRepository (target_repo target)
      (target_owner target +:+ "/" +:+ target_repo target)
      (target_owner target) in
  match outcome with
  | Returned _ =>
      (w', results ++ [mkApplyResult repository (target_branch target) true None])
  | Threw e =>
      (w', results ++
           [mkApplyResult repository (target_branch target) false
              (Some (message_of e "Unknown error"))])
  end.

Definition applyProtectionToMultiple (w : World) (targets : list Target)
    (protection : JSObject) : World * list ApplyResult :=
  fold_left (apply_target protection) targets (w, []).

End Remote.

(** The result the loop pushes for a target, given how its call ended
    (used to state what the loop does). *)
Definition pushed (target : Target) (outcome : ApiOutcome) : ApplyResult :=
  mkApplyResult
    (mkRepository (target_repo target)
       (target_owner target +:+ "/" +:+ target_repo target)
       (target_owner target))
    (target_branch target)
    match outcome with Returned _ => true | Threw _ => false end
    match outcome with
    | Returned _ => None
    | Threw e => Some (message_of e "Unknown error")
    end.

(** The counters of [renderResults] (PreviewPane.ts): the pair of
    [success] and [failed] after the loop over the results. *)
Definition count_results (results : list ApplyResult) : nat * nat :=
  fold_left
    (fun (c : nat * nat) (result : ApplyResult) =>
       if success result then (S (fst c), snd c) else (fst c, S (snd c)))
    results (0, 0).

(** ** components/PreviewPane.ts: the diff of two configurations *)

Record Diff : Type := mkDiff {
  added : list string;
  removed : list string;
  changed : list string
}.

(** [current ? current[key] : undefined] *)
Definition currentVal (current : option JSObject) (key : string) : JSVal :=
  match current with
  | Some c => get key c
  | None => JUndefined
  end.

(** The [keys] set: the keys of [current || {}], then those of
    [proposed]. *)
Definition diff_keys (current : option JSObject) (proposed : JSObject)
  : list string :=
  Set_of (Object_keys (match current with Some c => c | None => [] end)
          ++ Object_keys proposed).

(** The body of the loop over the keys. *)
Definition diff_key (current : option JSObject) (proposed : JSObject)
    (d : Diff) (key : string) : Diff :=
  if String.eqb key "url" then d
  else
    let proposedVal := get key proposed in
    if is_undefined (currentVal current key) && negb (is_undefined proposedVal)
    then mkDiff (added d ++ [key]) (removed d) (changed d)
    else if negb (is_undefined (currentVal current key)) && is_undefined proposedVal
    then mkDiff (added d) (removed d ++ [key]) (changed d)
    else if differ (stringify (currentVal current key)) (stringify proposedVal)
    then mkDiff (added d) (removed d) (changed d ++ [key])
    else d.

Definition diffProtection (current : option JSObject) (proposed : JSObject)
  : Diff :=
  fold_left (diff_key current proposed) (diff_keys current proposed)
    (mkDiff [] [] []).

(** ** components/ProtectionEditor.ts: the editor *)

Inductive FieldType : Type :=
| boolean
| number
| string_type
| workflow_select.

Record EditorField : Type := mkField {
  key : string;
  label : string;
  type : FieldType;
  value : JSVal;
  parent : option string
}.

Record Workflow : Type := mkWorkflow {
  workflow_id : Z;
  workflow_name : string;
  workflow_path : string;
  workflow_state : string
}.

Record WorkflowItem : Type := mkWorkflowItem {
  workflow : Workflow;
  selected : bool
}.

(** The [state] object of the editor; the widget bookkeeping ([inputs],
    [rowIds], [modalRowIds]) is left out.  [modalShown] is the flag
    [state.showWorkflowModal]. *)
Record EditorState : Type := mkEditor {
  protection : JSObject;
  fields : list EditorField;
  focusIndex : nat;
  workflows : list Workflow;
  repoInfo : option (string * string);
  modalShown : bool;
  workflowItems : list WorkflowItem;
  workflowFocusIndex : nat
}.

Definition with_protection (st : EditorState) (p : JSObject) : EditorState :=
  mkEditor p (fields st) (focusIndex st) (workflows st) (repoInfo st)
    (modalShown st) (workflowItems st) (workflowFocusIndex st).

Definition with_fields (st : EditorState) (fs : list EditorField) : EditorState :=
  mkEditor (protection st) fs (focusIndex st) (workflows st) (repoInfo st)
    (modalShown st) (workflowItems st) (workflowFocusIndex st).

Definition with_focusIndex (st : EditorState) (i : nat) : EditorState :=
  mkEditor (protection st) (fields st) i (workflows st) (repoInfo st)
    (modalShown st) (workflowItems st) (workflowFocusIndex st).

Definition with_workflows (st : EditorState) (info : string * string)
    (ws : list Workflow) : EditorState :=
  mkEditor (protection st) (fields st) (focusIndex st) ws (Some info)
    (modalShown st) (workflowItems st) (workflowFocusIndex st).

Definition with_modal (st : EditorState) (shown : bool)
    (items : list WorkflowItem) (focus : nat) : EditorState :=
  mkEditor (protection st) (fields st) (focusIndex st) (workflows st)
    (repoInfo st) shown items focus.

Definition with_value (f : EditorField) (v : JSVal) : EditorField :=
  mkField (key f) (label f) (type f) v (parent f).

Definition default_reviews : JSVal :=
  JObj [ ("dismiss_stale_reviews", JBool false);
         ("require_code_owner_reviews", JBool false);
         ("required_approving_review_count", JNum 1) ].

Definition default_status_checks : JSVal :=
  JObj [ ("strict", JBool false); ("contexts", JArr []) ].

Definition createDefaultProtection : JSObject :=
  [ ("required_pull_request_reviews", default_reviews);
    ("required_status_checks", JNull);
    ("enforce_admins", JBool false);
    ("required_linear_history", JBool false);
    ("allow_force_pushes", JBool false);
    ("allow_deletions", JBool false);
    ("block_creations", JBool false);
    ("required_conversation_resolution", JBool true);
    ("restrictions", JNull) ].

Definition reviews_key : string := "required_pull_request_reviews".
Definition checks_key : string := "required_status_checks".

(** [rsc.contexts?.join(', ') ?? '']; [None] when [join] is not a function
    of the value. *)
Definition contexts_text (rsc : JSVal) : option JSVal :=
  match prop rsc "contexts" with
  | JUndefined | JNull => Some (JStr "")
  | JArr items => Some (JStr (Array_join ", " items))
  | _ => None
  end.

(** The field list of the current configuration; [None] when building it
    throws. *)
Definition buildFields (st : EditorState) : option (list EditorField) :=
  let p := protection st in
  let toggles :=
    [ mkField "enforce_admins" "Enforce for admins" boolean
        (coalesce (get "enforce_admins" p) (JBool false)) None;
      mkField "required_linear_history" "Require linear history" boolean
        (coalesce (get "required_linear_history" p) (JBool false)) None;
      mkField "allow_force_pushes" "Allow force pushes" boolean
        (coalesce (get "allow_force_pushes" p) (JBool false)) None;
      mkField "allow_deletions" "Allow deletions" boolean
        (coalesce (get "allow_deletions" p) (JBool false)) None;
      mkField "block_creations" "Block creations" boolean
        (coalesce (get "block_creations" p) (JBool false)) None;
      mkField "required_conversation_resolution"
        "Require conversation resolution" boolean
        (coalesce (get "required_conversation_resolution" p) (JBool true)) None ] in
  let rpr := get reviews_key p in
  let reviews :=
    if truthy rpr then
      [ mkField "rpr_enabled" "PR Reviews Enabled" boolean (JBool true)
          (Some reviews_key);
        mkField "dismiss_stale_reviews" "  Dismiss stale reviews" boolean
          (coalesce (prop rpr "dismiss_stale_reviews") (JBool false))
          (Some reviews_key);
        mkField "require_code_owner_reviews" "  Require code owner reviews"
          boolean
          (coalesce (prop rpr "require_code_owner_reviews") (JBool false))
          (Some reviews_key);
        mkField "required_approving_review_count" "  Required approvals" number
          (coalesce (prop rpr "required_approving_review_count") (JNum 1))
          (Some reviews_key) ]
    else
      [ mkField "rpr_enabled" "PR Reviews Enabled" boolean (JBool false)
          (Some reviews_key) ] in
  let rsc := get checks_key p in
  checks ←
    (if truthy rsc then
       text ← contexts_text rsc;
       Some
         ([ mkField "rsc_enabled" "Status Checks Enabled" boolean (JBool true)
              (Some checks_key);
            mkField "strict" "  Require branches up-to-date" boolean
              (coalesce (prop rsc "strict") (JBool false)) (Some checks_key);
            mkField "contexts" "  Status checks (comma-sep)" string_type text
              (Some checks_key) ]
          ++ (if Nat.ltb 0 (length (workflows st))
              then [ mkField "add_workflow" "  [+] Add workflow checks"
                       workflow_select (JStr "") (Some checks_key) ]
              else []))
     else
       Some [ mkField "rsc_enabled" "Status Checks Enabled" boolean
                (JBool false) (Some checks_key) ]);
  Some
    (toggles ++ reviews ++ checks
     ++ [ mkField "divider_apply" "─────────────────────────" boolean
            (JBool false) None;
          mkField "apply" ">>> APPLY PROTECTION <<<" boolean (JBool false)
            None ]).

(** The state part of [renderFields]: the field list is rebuilt. *)
Definition renderFields (st : EditorState) : option EditorState :=
  fs ← buildFields st;
  Some (with_fields st fs).

(** [p[outer][inner] = v] where [p[outer]] is truthy: an object gets the
    property; assigning to a property of a primitive throws (the module is
    strict code), and a named property on an array is outside the model. *)
Definition assign_nested (outer inner : string) (v : JSVal) (p : JSObject)
  : option JSObject :=
  match get outer p with
  | JObj o => Some (set outer (JObj (set inner v o)) p)
  | _ => None
  end.

Definition parent_is (f : EditorField) (k : string) : bool :=
  match parent f with
  | Some q => String.eqb q k
  | None => false
  end.

Definition updateProtectionFromField (st : EditorState) (field : EditorField)
  : option EditorState :=
  let p := protection st in
  if parent_is field reviews_key then
    if String.eqb (key field) "rpr_enabled" then
      renderFields
        (with_protection st
           (set reviews_key
              (if truthy (value field) then default_reviews else JNull) p))
    else if truthy (get reviews_key p) then
      if String.eqb (key field) "dismiss_stale_reviews" then
        p' ← assign_nested reviews_key "dismiss_stale_reviews" (value field) p;
        Some (with_protection st p')
      else if String.eqb (key field) "require_code_owner_reviews" then
        p' ← assign_nested reviews_key "require_code_owner_reviews"
               (value field) p;
        Some (with_protection st p')
      else if String.eqb (key field) "required_approving_review_count" then
        p' ← assign_nested reviews_key "required_approving_review_count"
               (value field) p;
        Some (with_protection st p')
      else Some st
    else Some st
  else if parent_is field checks_key then
    if String.eqb (key field) "rsc_enabled" then
      renderFields
        (with_protection st
           (set checks_key
              (if truthy (value field) then default_status_checks else JNull) p))
    else if truthy (get checks_key p) then
      if String.eqb (key field) "strict" then
        p' ← assign_nested checks_key "strict" (value field) p;
        Some (with_protection st p')
      else if String.eqb (key field) "contexts" then
        match value field with
        | JStr text =>
            p' ← assign_nested checks_key "contexts"
                   (JArr (map JStr
                            (List.filter (fun s => negb (String.eqb s ""))
                               (map trim (split_comma text))))) p;
            Some (with_protection st p')
        | _ => None
        end
      else Some st
    else Some st
  else if existsb (String.eqb (key field)) boolean_flags then
    Some (with_protection st (set (key field) (value field) p))
  else Some st.

(** [contexts.includes(name)] on the value of [contexts]: an array is
    searched, a string is searched for the substring; on anything else the
    call throws ([None]). *)
Definition contexts_includes (contexts : JSVal) (name : string) : option bool :=
  match contexts with
  | JArr items => Some (Array_includes name items)
  | JStr text => Some (String_includes name text)
  | _ => None
  end.

(** One round of the loop of [addWorkflowChecks]. *)
Definition add_check (acc : option JSObject) (name : string) : option JSObject :=
  p ← acc;
  let contexts := prop (get checks_key p) "contexts" in
  match contexts_includes contexts name with
  | None => None
  | Some true => Some p
  | Some false =>
      match contexts with
      | JArr items =>
          assign_nested checks_key "contexts" (JArr (items ++ [JStr name])) p
      | _ => None
      end
  end.

Definition addWorkflowChecks (st : EditorState) (workflowNames : list string)
  : option EditorState :=
  let p := protection st in
  let p1 :=
    if truthy (get checks_key p) then p
    else set checks_key default_status_checks p in
  p2 ← fold_left add_check workflowNames (Some p1);
  renderFields (with_protection st p2).

(** [state.protection.required_status_checks?.contexts?.includes(name)
    ?? false] *)
Definition alreadyAdded (p : JSObject) (name : string) : option bool :=
  let rsc := get checks_key p in
  if nullish rsc then Some false
  else
    let contexts := prop rsc "contexts" in
    if nullish contexts then Some false
    else contexts_includes contexts name.

(** [workflows.map(...)] of [showWorkflowModal] *)
Fixpoint workflow_items (p : JSObject) (ws : list Workflow)
  : option (list WorkflowItem) :=
  match ws with
  | [] => Some []
  | w :: rest =>
      b ← alreadyAdded p (workflow_name w);
      items ← workflow_items p rest;
      Some (mkWorkflowItem w b :: items)
  end.

Definition showWorkflowModal (st : EditorState) : option EditorState :=
  if Nat.eqb (length (workflows st)) 0 then Some st
  else
    items ← workflow_items (protection st) (workflows st);
    Some (with_modal st true items 0).

Record Key : Type := mkKey {
  key_name : string;
  shift : bool;
  ctrl : bool
}.

(** The callback a key press ends in, if any. *)
Inductive EditorEvent : Type :=
| onSave (p : JSObject)
| onCancel.

Definition is_key (k : Key) (n : string) : bool := String.eqb (key_name k) n.

Definition toggle_item (item : WorkflowItem) : WorkflowItem :=
  mkWorkflowItem (workflow item) (negb (selected item)).

(** The names of the selected items, as the confirm key of the modal
    collects them. *)
Definition selected_names (items : list WorkflowItem) : list string :=
  map (fun w => workflow_name (workflow w)) (List.filter selected items).

(** [handleKey]; [None] when the handler throws.  The focus arithmetic is
    on the natural numbers: both lists are non-empty wherever it runs. *)
Definition handleKey (st : EditorState) (k : Key)
  : option (EditorState * option EditorEvent) :=
  if modalShown st then
    if is_key k "escape" then
      st' ← renderFields (with_modal st false (workflowItems st) (workflowFocusIndex st));
      Some (st', None)
    else if is_key k "up" || is_key k "k" then
      Some (with_modal st true (workflowItems st)
              ((workflowFocusIndex st + length (workflowItems st) - 1)
               mod length (workflowItems st)), None)
    else if is_key k "down" || is_key k "j" then
      Some (with_modal st true (workflowItems st)
              ((workflowFocusIndex st + 1) mod length (workflowItems st)), None)
    else if is_key k "space" then
      match workflowItems st !! workflowFocusIndex st with
      | Some item =>
          Some (with_modal st true
                  (<[workflowFocusIndex st := toggle_item item]> (workflowItems st))
                  (workflowFocusIndex st), None)
      | None => Some (st, None)
      end
    else if is_key k "return" || is_key k "enter" then
      let st1 := with_modal st false (workflowItems st) (workflowFocusIndex st) in
      let names := selected_names (workflowItems st) in
      st' ← (if Nat.ltb 0 (length names)
             then addWorkflowChecks st1 names
             else renderFields st1);
      Some (st', None)
    else Some (st, None)
  else if ctrl k && is_key k "a" then Some (st, Some (onSave (protection st)))
  else if is_key k "tab" then
    st' ← renderFields
            (with_focusIndex st
               (if shift k
                then (focusIndex st + length (fields st) - 1) mod length (fields st)
                else (focusIndex st + 1) mod length (fields st)));
    Some (st', None)
  else if is_key k "return" || is_key k "enter" then
    match fields st !! focusIndex st with
    | None => Some (st, None)
    | Some field =>
        if String.eqb (key field) "apply"
        then Some (st, Some (onSave (protection st)))
        else
          match type field with
          | boolean =>
              let field' := with_value field (JBool (negb (truthy (value field)))) in
              st1 ← updateProtectionFromField
                      (with_fields st (<[focusIndex st := field']> (fields st)))
                      field';
              st2 ← renderFields st1;
              Some (st2, None)
          | workflow_select =>
              st' ← showWorkflowModal st;
              Some (st', None)
          | _ => Some (st, None)
          end
    end
  else if is_key k "escape" then Some (st, Some onCancel)
  else if is_key k "up" || is_key k "k" then
    st' ← renderFields
            (with_focusIndex st
               ((focusIndex st + length (fields st) - 1) mod length (fields st)));
    Some (st', None)
  else if is_key k "down" || is_key k "j" then
    st' ← renderFields
            (with_focusIndex st ((focusIndex st + 1) mod length (fields st)));
    Some (st', None)
  else Some (st, None).

(** The [INPUT] handler of the input widget of row [i]: the number field
    takes what [parseInt] gives unless that is [NaN] or negative ([-0] is
    not, and is the integer [0] here), the text field takes the text; other
    rows have no input widget. *)
Definition onInput (st : EditorState) (i : nat) (val : string)
  : option EditorState :=
  match fields st !! i with
  | None => Some st
  | Some field =>
      match type field with
      | number =>
          let accept (num : JSVal) :=
            let field' := with_value field num in
            updateProtectionFromField
              (with_fields st (<[i := field']> (fields st))) field' in
          match parseInt val with
          | Finite num => if (0 <=? num)%Z then accept (JNum num) else Some st
          | Infinite false => accept JInfinity
          | Infinite true | NaN => Some st
          end
      | string_type =>
          let field' := with_value field (JStr val) in
          updateProtectionFromField
            (with_fields st (<[i := field']> (fields st))) field'
      | _ => Some st
      end
  end.

(** [{ ...protection }]: a new object with the same own properties.  The
    copy is shallow: in the source the nested objects (the reviews, the
    status checks) are the ones of the original, and what the editor
    writes into them shows in the original too.  A value here has no
    identity, so the properties below speak of the copy only, never of the
    original after an edit. *)
Definition spread (o : JSObject) : JSObject := o.

Definition setProtection (st : EditorState) (p : option JSObject)
  : option EditorState :=
  renderFields
    (with_focusIndex
       (with_protection st
          match p with
          | Some o => spread o
          | None => createDefaultProtection
          end) 0).

Definition getProtection (st : EditorState) : JSObject := protection st.

(** [setRepoInfo] once [getRepoWorkflows] has answered with [ws] (the empty
    list when the request failed). *)
Definition setRepoInfo (st : EditorState) (owner repo : string)
    (ws : list Workflow) : option EditorState :=
  renderFields (with_workflows st (owner, repo) ws).

(** The contexts of the status checks of a configuration typed as
    [RequiredStatusChecks | null | undefined]: the elements of the array,
    none when there are no status checks; [None] for any other shape. *)
Definition status_contexts (p : JSObject) : option (list JSVal) :=
  match get checks_key p with
  | JObj o =>
      match get "contexts" o with
      | JArr items => Some items
      | _ => None
      end
  | v => if truthy v then None else Some []
  end.

(** The keys of a configuration that the editor writes. *)
Definition editable_keys : list string :=
  reviews_key :: checks_key :: boolean_flags.

(** [p'] is [p] on every key the editor does not write. *)
Definition untouched (p p' : JSObject) : Prop :=
  forall k, ~ In k editable_keys ->
    get k p' = get k p /\ has k p' = has k p.

(** What the operator does in the editor: a key press, or text typed into
    the input widget of a row. *)
Inductive EditorAction : Type :=
| KeyPressed (k : Key)
| Typed (row : nat) (text : string).

Definition act (st : EditorState) (a : EditorAction) : option EditorState :=
  match a with
  | KeyPressed k => fst <$> handleKey st k
  | Typed row text => onInput st row text
  end.

Fixpoint editing (st : EditorState) (actions : list EditorAction)
  : option EditorState :=
  match actions with
  | [] => Some st
  | a :: rest => act st a ≫= (fun st' => editing st' rest)
  end.

(** The editor as [createProtectionEditor] returns it. *)
Definition createProtectionEditor : option EditorState :=
  renderFields (mkEditor createDefaultProtection [] 0 [] None false [] 0).

(** ** utils/templates.ts: the template store *)

Record Template : Type := mkTemplate {
  template_name : string;
  description : option string;
  created_at : string;
  updated_at : string;
  template_protection : JSObject
}.

(** What a file of the templates directory holds: a template, or something
    [readFile] or [JSON.parse] fails on.  The files are regular files that
    the process may write and remove; directories inside the templates
    directory are not part of the model. *)
Inductive File : Type :=
| Stored (t : Template)
| Unreadable.

(** The templates directory maps a template name to its file
    [<name>.json]; this reads a name as a file name (see [plain_name]
    below). *)
Definition loadTemplate (dir : gmap string File) (name : string)
  : option Template :=
  match dir !! name with
  | Some (Stored t) => Some t
  | _ => None
  end.

(** [a || b] on optional strings: [undefined] and the empty string are
    falsy. *)
Definition or_else (a b : option string) : option string :=
  match a with
  | Some s => if String.eqb s "" then b else a
  | None => b
  end.

(** [saveTemplate], given the ISO string [now] of the clock; it returns the
    directory after [writeFile] and the template. *)
Definition saveTemplate (dir : gmap string File) (name : string)
    (protection : JSObject) (desc : option string) (now : string)
  : gmap string File * Template :=
  let existing := loadTemplate dir name in
  let template :=
    mkTemplate name
      (or_else desc (existing ≫= description))
      (match existing with
       | Some e => if String.eqb (created_at e) "" then now else created_at e
       | None => now
       end)
      now
      protection in
  let written :=
    mkTemplate name (description template) (created_at template)
      (updated_at template)
      (match JSON_roundtrip (JObj protection) with
       | JObj o => o
       | _ => []
       end) in
  (<[name := Stored written]> dir, template).

(** A number of saves, one after the other. *)
Record Save : Type := mkSave {
  save_name : string;
  save_protection : JSObject;
  save_description : option string;
  save_now : string
}.

Definition saves (dir : gmap string File) (l : list Save) : gmap string File :=
  fold_left
    (fun d s =>
       fst (saveTemplate d (save_name s) (save_protection s)
              (save_description s) (save_now s)))
    l dir.

(** ** app.ts: the screen flow *)

Module App.

Inductive Screen : Type :=
| on_orgs
| on_repos
| on_branches
| on_editor
| on_templates
| on_preview.

Record Organization : Type := mkOrganization {
  login : string
}.

(** The component on screen, with the state its callbacks close over: the
    branch selector keeps the repository it was opened for, the preview
    pane its mode. *)
Inductive Component : Type :=
| NoComponent
| OrgSelector
| RepoSelector
| BranchSelector (first : Repository)
| ProtectionEditor (ed : EditorState)
| TemplateManager
| PreviewPane (results_mode : bool).

(** The [state] object of [runApp], and the component on screen. *)
Record State : Type := mkState {
  screen : Screen;
  org : option Organization;
  repos : list Repository;
  selectedRepos : list Repository;
  branch : option string;
  currentProtection : option JSObject;
  proposedProtection : option JSObject;
  results : list ApplyResult;
  isLoading : bool;
  error : option string;
  component : Component
}.

Definition initial : State :=
  mkState on_orgs None [] [] None None None [] false None NoComponent.

(** How a request for a list ends. *)
Inductive Fetch (A : Type) : Type :=
| Fetched (a : A)
| Failed (e : Thrown).
Arguments Fetched {A} a.
Arguments Failed {A} e.

Definition with_screen (st : State) (s : Screen) (c : Component) : State :=
  mkState s (org st) (repos st) (selectedRepos st) (branch st)
    (currentProtection st) (proposedProtection st) (results st) (isLoading st)
    (error st) c.

Definition with_org (st : State) (o : Organization) : State :=
  mkState (screen st) (Some o) (repos st) (selectedRepos st) (branch st)
    (currentProtection st) (proposedProtection st) (results st) (isLoading st)
    (error st) (component st).

Definition with_repos (st : State) (rs : list Repository) : State :=
  mkState (screen st) (org st) rs (selectedRepos st) (branch st)
    (currentProtection st) (proposedProtection st) (results st) (isLoading st)
    (error st) (component st).

Definition with_selectedRepos (st : State) (rs : list Repository) : State :=
  mkState (screen st) (org st) (repos st) rs (branch st)
    (currentProtection st) (proposedProtection st) (results st) (isLoading st)
    (error st) (component st).

Definition with_branch (st : State) (b : string) : State :=
  mkState (screen st) (org st) (repos st) (selectedRepos st) (Some b)
    (currentProtection st) (proposedProtection st) (results st) (isLoading st)
    (error st) (component st).

Definition with_currentProtection (st : State) (p : option JSObject) : State :=
  mkState (screen st) (org st) (repos st) (selectedRepos st) (branch st)
    p (proposedProtection st) (results st) (isLoading st)
    (error st) (component st).

Definition with_proposedProtection (st : State) (p : JSObject) : State :=
  mkState (screen st) (org st) (repos st) (selectedRepos st) (branch st)
    (currentProtection st) (Some p) (results st) (isLoading st)
    (error st) (component st).

Definition with_results (st : State) (rs : list ApplyResult) : State :=
  mkState (screen st) (org st) (repos st) (selectedRepos st) (branch st)
    (currentProtection st) (proposedProtection st) rs (isLoading st)
    (error st) (component st).

Definition showLoading (st : State) : State :=
  mkState (screen st) (org st) (repos st) (selectedRepos st) (branch st)
    (currentProtection st) (proposedProtection st) (results st) true
    (error st) (component st).

Definition hideLoading (st : State) : State :=
  mkState (screen st) (org st) (repos st) (selectedRepos st) (branch st)
    (currentProtection st) (proposedProtection st) (results st) false
    (error st) (component st).

Definition showError (st : State) (message : string) : State :=
  mkState (screen st) (org st) (repos st) (selectedRepos st) (branch st)
    (currentProtection st) (proposedProtection st) (results st) (isLoading st)
    (Some message) (component st).

Record Branch : Type := mkBranch {
  branch_name : string;
  protected : bool
}.

Section Flow.

(** The remote service, as in [Remote]; the list requests are taken with
    their typed answers. *)
Variable World : Type.
Variable ghApi : World -> Request -> World * ApiOutcome.
Variable getOrganizations : World -> World * Fetch (list Organization).
Variable getOrgRepos : World -> string -> World * Fetch (list Repository).
Variable getRepoBranches :
  World -> string -> string -> World * Fetch (list Branch).
Variable getRepoWorkflows : World -> string -> string -> World * list Workflow.

Definition showOrgSelector (w : World) (st : State) : World * State :=
  let st1 := showLoading (with_screen st on_orgs OrgSelector) in
  let (w', answer) := getOrganizations w in
  match answer with
  | Fetched _ => (w', hideLoading st1)
  | Failed e =>
      (w', showError (hideLoading st1)
             (message_of e "Failed to load organizations"))
  end.

Definition showRepoSelector (w : World) (st : State) : World * State :=
  match org st with
  | None => (w, st)
  | Some o =>
      let st1 := showLoading (with_screen st on_repos RepoSelector) in
      let (w', answer) := getOrgRepos w (login o) in
      match answer with
      | Fetched rs => (w', hideLoading (with_repos st1 rs))
      | Failed e =>
          (w', showError (hideLoading st1)
                 (message_of e "Failed to load repositories"))
      end
  end.

Definition showBranchSelector (w : World) (st : State) : World * State :=
  match selectedRepos st with
  | [] => (w, st)
  | first :: _ =>
      let st1 :=
        showLoading (with_screen st on_branches (BranchSelector first)) in
      let (w', answer) := getRepoBranches w (owner_login first) (name first) in
      match answer with
      | Fetched _ => (w', hideLoading st1)
      | Failed e =>
          (w', showError (hideLoading st1)
                 (message_of e "Failed to load branches"))
      end
  end.

(** [showEditor]: a new editor is seeded with the live configuration and
    told the first repository; the answer of [getRepoWorkflows] is taken
    before the next key.  The third component is what the call throws. *)
Definition showEditor (w : World) (st : State)
  : World * State * option Thrown :=
  let st1 := with_screen st on_editor NoComponent in
  match createProtectionEditor ≫= (fun ed => setProtection ed (currentProtection st)),
        selectedRepos st with
  | Some ed, first :: _ =>
      let (w', ws) := getRepoWorkflows w (owner_login first) (name first) in
      let ed' :=
        match setRepoInfo ed (owner_login first) (name first) ws with
        | Some ed2 => ed2
        | None => ed
        end in
      (w', with_screen st on_editor (ProtectionEditor ed'), None)
  | _, _ => (w, st1, Some TypeError)
  end.

Definition showPreview (st : State) : State :=
  match proposedProtection st with
  | None => st
  | Some _ => with_screen st on_preview (PreviewPane false)
  end.

(** The callback of the organisation selector. *)
Definition onOrgSelected (w : World) (st : State) (o : Organization)
  : World * State :=
  showRepoSelector w (with_org st o).

(** The callback of the repository selector. *)
Definition onReposSelected (w : World) (st : State) (rs : list Repository)
  : World * State :=
  showBranchSelector w (with_selectedRepos st rs).

(** The callback of the branch selector opened for [first]. *)
Definition onBranchSelected (w : World) (st : State) (first : Repository)
    (b : string) : World * State :=
  let st1 := showLoading (with_branch st b) in
  let (w1, answer) :=
    getBranchProtection World ghApi w (owner_login first) (name first) b in
  match answer with
  | Normal live =>
      let '(w2, st2, thrown) :=
        showEditor w1 (hideLoading (with_currentProtection st1 live)) in
      match thrown with
      | None => (w2, st2)
      | Some e =>
          (w2, showError (hideLoading st2)
                 (message_of e "Failed to load protection"))
      end
  | Throw e =>
      (w1, showError (hideLoading st1)
             (message_of e "Failed to load protection"))
  end.

(** The key handler of the editor screen.  Ctrl+S writes a template file
    and leaves the state as it is; Ctrl+T opens the template manager;
    every key then goes to the editor, whose callbacks are [onSave] (the
    configuration becomes the proposed one, the preview opens) and
    [onCancel] (back to the branches).  [None] when the editor throws. *)
Definition editorKey (w : World) (st : State) (ed : EditorState) (k : Key)
  : option (World * State) :=
  let st0 :=
    if ctrl k && is_key k "s" && bool_decide (is_Some (proposedProtection st))
    then st
    else if ctrl k && is_key k "t"
    then with_screen st on_templates TemplateManager
    else st in
  '(ed', event) ← handleKey ed k;
  let st1 :=
    match component st0 with
    | ProtectionEditor _ => with_screen st0 (screen st0) (ProtectionEditor ed')
    | _ => st0
    end in
  match event with
  | None => Some (w, st1)
  | Some (onSave p) => Some (w, showPreview (with_proposedProtection st1 p))
  | Some onCancel => Some (showBranchSelector w st1)
  end.

Definition target_of (b : string) (r : Repository) : Target :=
  mkTarget (owner_login r) (name r) b.

(** The confirm callback of the preview pane, from the key press to the
    end of the batch it awaits, with nothing else happening in between;
    [None] when no branch is stored (the targets would carry [null]). *)
Definition onPreviewConfirm (w : World) (st : State) : option (World * State) :=
  match proposedProtection st with
  | None => Some (w, st)
  | Some proposed =>
      b ← branch st;
      let (w', rs) :=
        applyProtectionToMultiple World ghApi w
          (map (target_of b) (selectedRepos st)) proposed in
      Some (w', with_screen (hideLoading (with_results (showLoading st) rs))
                  (screen st) (PreviewPane true))
  end.

(** The key handler of the preview screen.  What [showEditor] throws is
    not caught here: the state stays as [showEditor] left it. *)
Definition previewKey (w : World) (st : State) (results_mode : bool)
    (k : Key) : option (World * State) :=
  if is_key k "return" || is_key k "enter" then
    if results_mode then Some (fst (showEditor w st))
    else onPreviewConfirm w st
  else if is_key k "escape" then Some (fst (showEditor w st))
  else Some (w, st).

(** The callback of the template manager: the template becomes the
    proposed configuration, the editor opens and, a moment later, is seeded
    with the template.  [None] when that seeding throws. *)
Definition onTemplateSelected (w : World) (st : State) (p : JSObject)
  : option (World * State) :=
  let '(w1, st1, thrown) := showEditor w (with_proposedProtection st p) in
  match thrown, component st1 with
  | None, ProtectionEditor ed =>
      ed1 ← setProtection ed (Some p);
      match selectedRepos st1 with
      | first :: _ =>
          let (w2, ws) := getRepoWorkflows w1 (owner_login first) (name first) in
          ed2 ← setRepoInfo ed1 (owner_login first) (name first) ws;
          Some (w2, with_screen st1 (screen st1) (ProtectionEditor ed2))
      | [] => Some (w1, with_screen st1 (screen st1) (ProtectionEditor ed1))
      end
  | _, _ => Some (w1, st1)
  end.

(** A key press, given to the handler of the component on screen (the
    organisation selector has none).  A selection in a list arrives through
    the callbacks above; the keys that only change what a selector shows,
    and the deletion of a template file, leave the state as it is. *)
Definition keypress (w : World) (st : State) (k : Key)
  : option (World * State) :=
  match component st with
  | RepoSelector =>
      if is_key k "escape" then Some (showOrgSelector w st) else Some (w, st)
  | BranchSelector _ =>
      if is_key k "escape" then Some (showRepoSelector w st) else Some (w, st)
  | ProtectionEditor ed => editorKey w st ed k
  | TemplateManager =>
      if is_key k "escape" then
        match org st with
        | Some _ => Some (showRepoSelector w st)
        | None => Some (showOrgSelector w st)
        end
      else Some (w, st)
  | PreviewPane results_mode => previewKey w st results_mode k
  | NoComponent | OrgSelector => Some (w, st)
  end.

End Flow.

End App.

(** The selections of a state, its two configurations and its results. *)
Definition selections (st : App.State) :=
  (App.org st, App.selectedRepos st, App.branch st, App.currentProtection st,
   App.proposedProtection st, App.results st).

(** ** More of the sources *)

(** *** components/PreviewPane.ts: the three tests of the diff loop *)

Definition is_added (current : option JSObject) (proposed : JSObject)
    (key : string) : bool :=
  negb (String.eqb key "url")
  && is_undefined (currentVal current key)
  && negb (is_undefined (get key proposed)).

Definition is_removed (current : option JSObject) (proposed : JSObject)
    (key : string) : bool :=
  negb (String.eqb key "url")
  && negb (is_undefined (currentVal current key))
  && is_undefined (get key proposed).

Definition is_changed (current : option JSObject) (proposed : JSObject)
    (key : string) : bool :=
  negb (String.eqb key "url")
  && negb (is_undefined (currentVal current key))
  && negb (is_undefined (get key proposed))
  && differ (stringify (currentVal current key)) (stringify (get key proposed)).

(** *** components/PreviewPane.ts: the listing of the proposed settings *)

(** The first occurrence of [pattern] in [s]: the text before it and the
    text after it. *)
Fixpoint split_at_first (pattern s : string) : option (string * string) :=
  match strip_prefix pattern s with
  | Some after => Some ("", after)
  | None =>
      match s with
      | EmptyString => None
      | String c rest =>
          match split_at_first pattern rest with
          | Some (before, after) => Some (String c before, after)
          | None => None
          end
      end
  end.

(** The replacement text of [String.prototype.replace] for a pattern that
    is a string: [$$] is a dollar, [$&] the match, [$`] the text before the
    match and [$'] the text after it; there are no groups, so any other
    dollar stands for itself. *)
Fixpoint GetSubstitution (matched before after replacement : string) : string :=
  match replacement with
  | EmptyString => ""
  | String c rest =>
      if Ascii.eqb c "$" then
        match rest with
        | String d rest' =>
            if Ascii.eqb d "$"
            then String "$" (GetSubstitution matched before after rest')
            else if Ascii.eqb d "&"
            then matched +:+ GetSubstitution matched before after rest'
            else if Ascii.eqb d "`"
            then before +:+ GetSubstitution matched before after rest'
            else if Ascii.eqb d "'"
            then after +:+ GetSubstitution matched before after rest'
            else String c (GetSubstitution matched before after rest)
        | EmptyString => String c ""
        end
      else String c (GetSubstitution matched before after rest)
  end.

(** [s.replace(pattern, replacement)] for two strings: the first
    occurrence only. *)
Definition String_replace (pattern replacement s : string) : string :=
  match split_at_first pattern s with
  | Some (before, after) =>
      before +:+ GetSubstitution pattern before after replacement +:+ after
  | None => s
  end.

(** [formatValue]; every value is of one of the types tested, so
    [String(val)] of the last line is never reached. *)
Fixpoint formatValue (val : JSVal) (indent : string) : list string :=
  match val with
  | JNull => [ indent +:+ "null" ]
  | JUndefined => [ indent +:+ "undefined" ]
  | JBool b => [ indent +:+ (if b then "true" else "false") ]
  | JNum n => [ indent +:+ Number_toString n ]
  | JStr s => [ indent +:+ String quote_char (s +:+ String quote_char "") ]
  | JArr [] => [ indent +:+ "[]" ]
  | JArr items =>
      let fix elements (l : list JSVal) : list string :=
        match l with
        | [] => []
        | item :: rest => formatValue item (indent +:+ "  ") ++ elements rest
        end in
      [ indent +:+ "[" ] ++ elements items ++ [ indent +:+ "]" ]
  | JObj [] => [ indent +:+ "{}" ]
  | JObj props =>
      let fix entries (l : list (string * JSVal)) : list string :=
        match l with
        | [] => []
        | (k, v) :: rest =>
            let subLines := formatValue v (indent +:+ "  ") in
            (match subLines with
             | first :: _ =>
                 String_replace (indent +:+ "  ")
                   (indent +:+ "  " +:+ k +:+ ": ") first
             | [] => "undefined"
             end)
            :: tl subLines ++ entries rest
        end in
      [ indent +:+ "{" ] ++ entries props ++ [ indent +:+ "}" ]
  | JInfinity => [ indent +:+ "Infinity" ]
  end.

Fixpoint no_dollar (s : string) : bool :=
  match s with
  | EmptyString => true
  | String c rest => negb (Ascii.eqb c "$") && no_dollar rest
  end.

(** No key of the value, at any depth, has a dollar. *)
Fixpoint plain_keys (val : JSVal) : bool :=
  match val with
  | JArr items => forallb plain_keys items
  | JObj props =>
      forallb (fun entry => no_dollar (fst entry) && plain_keys (snd entry)) props
  | _ => true
  end.


(** The lines of one entry of an object. *)
Definition entry_lines (indent : string) (entry : string * JSVal) : list string :=
  let subLines := formatValue (snd entry) (indent +:+ "  ") in
  (match subLines with
   | first :: _ =>
       String_replace (indent +:+ "  ")
         (indent +:+ "  " +:+ fst entry +:+ ": ") first
   | [] => "undefined"
   end)
  :: tl subLines.

(** *** components/ProtectionEditor.ts: the field list and the text of
    the contexts *)

(** The field list is the one built from the configuration. *)
Definition in_sync (st : EditorState) : Prop :=
  buildFields st = Some (fields st).

(** The keys of the field list, in order. *)
Definition field_keys (st : EditorState) : list string :=
  boolean_flags
  ++ ["rpr_enabled"]
  ++ (if truthy (get reviews_key (protection st))
      then [ "dismiss_stale_reviews"; "require_code_owner_reviews";
             "required_approving_review_count" ]
      else [])
  ++ ["rsc_enabled"]
  ++ (if truthy (get checks_key (protection st))
      then [ "strict"; "contexts" ]
           ++ (if Nat.ltb 0 (length (workflows st)) then ["add_workflow"] else [])
      else [])
  ++ [ "divider_apply"; "apply" ].

Fixpoint no_comma (s : string) : bool :=
  match s with
  | EmptyString => true
  | String c rest => negb (Ascii.eqb c ","%char) && no_comma rest
  end.

(** A check name that the text field can hold: not empty, without a comma,
    without white space at either end. *)
Definition clean_name (s : string) : Prop :=
  s <> "" /\ no_comma s = true /\ trim s = s.

(** *** components/RepoSelector.ts: the selection list *)

Record RepoItem : Type := mkRepoItem {
  item_repo : Repository;
  item_selected : bool
}.

(** [setRepos] *)
Definition setRepos (fetched : list Repository) : list RepoItem :=
  map (fun r => mkRepoItem r false) fetched.

(** The space key on the row [idx] of the list. *)
Definition toggle_repo (items : list RepoItem) (idx : nat) : list RepoItem :=
  match items !! idx with
  | Some item =>
      <[idx := mkRepoItem (item_repo item) (negb (item_selected item))]> items
  | None => items
  end.

(** The handler of [ITEM_SELECTED]: the repositories handed to [onSelect],
    [None] when [onSelect] is not called. *)
Definition item_selected_handler (items : list RepoItem)
  : option (list Repository) :=
  let selectedRepos := map item_repo (List.filter item_selected items) in
  if Nat.ltb 0 (length selectedRepos) then Some selectedRepos else None.

(** *** utils/templates.ts: deleting and the default templates *)

(** A template name that is a file name: no separator of path segments, no
    NUL, and short enough for [.json] to follow it within the 255 bytes of
    a file name.  For such a name [join(getTemplatesDir(), name + '.json')]
    is a file directly in the templates directory, a different one for a
    different name (on a file system that tells names apart by their
    bytes), so the directory can be read as a map from names.  Any other
    name reaches a file through the segments of its path: it can stand for
    the file of another name, or for a file in a directory that is not
    there, and is outside what the map describes. *)
Definition plain_name (name : string) : bool :=
  forallb
    (fun c =>
       negb (Ascii.eqb c "/"%char) && negb (Ascii.eqb c backslash)
       && negb (Ascii.eqb c (ascii_of_nat 0)))
    (list_ascii_of_string name)
  && Nat.leb (String.length name) 250.

(** [deleteTemplate]: [unlink] succeeds on a file that is there. *)
Definition deleteTemplate (dir : gmap string File) (name : string)
  : gmap string File * bool :=
  match dir !! name with
  | Some _ => (delete name dir, true)
  | None => (dir, false)
  end.

Definition createDefaultTemplates : list JSObject :=
  [ [ ("required_pull_request_reviews",
        JObj [ ("dismiss_stale_reviews", JBool false);
               ("require_code_owner_reviews", JBool false);
               ("required_approving_review_count", JNum 1) ]);
      ("required_status_checks", JNull);
      ("enforce_admins", JBool false);
      ("required_linear_history", JBool false);
      ("allow_force_pushes", JBool false);
      ("allow_deletions", JBool false);
      ("required_conversation_resolution", JBool true) ];
    [ ("required_pull_request_reviews",
        JObj [ ("dismiss_stale_reviews", JBool true);
               ("require_code_owner_reviews", JBool true);
               ("required_approving_review_count", JNum 2) ]);
      ("required_status_checks",
        JObj [ ("strict", JBool true); ("contexts", JArr []) ]);
      ("enforce_admins", JBool true);
      ("required_linear_history", JBool true);
      ("allow_force_pushes", JBool false);
      ("allow_deletions", JBool false);
      ("required_conversation_resolution", JBool true) ];
    [ ("required_pull_request_reviews", JNull);
      ("required_status_checks", JNull);
      ("enforce_admins", JBool false);
      ("required_linear_history", JBool false);
      ("allow_force_pushes", JBool true);
      ("allow_deletions", JBool false);
      ("required_conversation_resolution", JBool false) ] ].

Definition default_names : list string := [ "basic"; "strict"; "unprotected" ].

Definition default_descriptions : list string :=
  [ "Basic protection: requires 1 PR approval";
    "Strict protection: 2 approvals, code owners, status checks, admin enforcement";
    "Unprotected: allows force pushes, no PR required" ].

(** One round of the loop of [initializeDefaultTemplates]; [now] is the
    time of the clock if the template is saved. *)
Definition initialize_one (dir : gmap string File)
    (entry : string * string * JSObject * string) : gmap string File :=
  let '(name, description, protection, now) := entry in
  match loadTemplate dir name with
  | Some _ => dir
  | None => fst (saveTemplate dir name protection (Some description) now)
  end.

Definition default_entries (nows : string * string * string)
  : list (string * string * JSObject * string) :=
  let '(now1, now2, now3) := nows in
  combine
    (combine (combine default_names default_descriptions) createDefaultTemplates)
    [ now1; now2; now3 ].

Definition initializeDefaultTemplates (dir : gmap string File)
    (nows : string * string * string) : gmap string File :=
  fold_left initialize_one (default_entries nows) dir.

(** * Scenarios *)

(** The configurations of the preview scenario: the live one with a [null]
    for the reviews, the live one without that key, and the proposed one. *)
Definition scenario_live : JSObject :=
  [ ("enforce_admins", JBool false); ("required_pull_request_reviews", JNull) ].

Definition scenario_live_without_reviews : JSObject :=
  [ ("enforce_admins", JBool false) ].

Definition scenario_proposed : JSObject :=
  [ ("enforce_admins", JBool true);
    ("required_pull_request_reviews",
      JObj [ ("dismiss_stale_reviews", JBool false);
             ("require_code_owner_reviews", JBool false);
             ("required_approving_review_count", JNum 1) ]) ].

(** A small batch: the call for the second of three targets throws. *)
Definition three_targets : list Target :=
  [ mkTarget "acme" "one" "main"; mkTarget "acme" "two" "main";
    mkTarget "acme" "three" "main" ].

Definition second_fails (w : unit) (r : Request) : unit * ApiOutcome :=
  match r with
  | PutProtection _ repo _ _ =>
      if String.eqb repo "two"
      then (w, Threw (ErrorObject "Branch not found"))
      else (w, Returned JNull)
  | GetProtection _ _ _ => (w, Returned JNull)
  end.

(** The workflow picker scenario: status checks with the context
    [ci/build], two known workflows; the picker is opened from its field
    (row 13), the second workflow is selected and the choice confirmed. *)
Definition picker_workflows : list Workflow :=
  [ mkWorkflow 1 "ci/build" ".github/workflows/build.yml" "active";
    mkWorkflow 2 "ci/test" ".github/workflows/test.yml" "active" ].

Definition picker_config : JSObject :=
  set checks_key
    (JObj [ ("strict", JBool false); ("contexts", JArr [JStr "ci/build"]) ])
    createDefaultProtection.

Definition picker_editor : option EditorState :=
  ed ← createProtectionEditor;
  ed1 ← setProtection ed (Some picker_config);
  setRepoInfo ed1 "acme" "one" picker_workflows.

Definition press (key : string) (editor : option EditorState)
  : option EditorState :=
  st ← editor;
  fst <$> handleKey st (mkKey key false false).

Definition picker_opened : option EditorState :=
  press "return" (Nat.iter 13 (press "down") picker_editor).


(** The editor as it is created, with the default configuration. *)
Definition default_editor : EditorState :=
  default (mkEditor createDefaultProtection [] 0 [] None false [] 0)
    createProtectionEditor.

(** A session of the application against a remote service with two
    organisations, one repository and one protected branch. *)
Definition session_response : JSVal :=
  JObj
    [ ("url",
        JStr "https://api.github.com/repos/acme/one/branches/main/protection");
      ("enforce_admins", JObj [ ("enabled", JBool true) ]);
      ("required_signatures", JObj [ ("enabled", JBool true) ]);
      ("lock_branch", JObj [ ("enabled", JBool false) ]) ].

Definition session_ghApi (w : unit) (r : Request) : unit * ApiOutcome :=
  match r with
  | GetProtection _ _ _ => (w, Returned session_response)
  | PutProtection _ _ _ _ => (w, Returned JNull)
  end.

Definition acme : App.Organization := App.mkOrganization "acme".
Definition globex : App.Organization := App.mkOrganization "globex".
Definition acme_one : Repository := mkRepository "one" "acme/one" "acme".

Definition session_orgs (w : unit)
  : unit * App.Fetch (list App.Organization) :=
  (w, App.Fetched [acme; globex]).

Definition session_repos (w : unit) (o : string)
  : unit * App.Fetch (list Repository) :=
  (w, App.Fetched [acme_one]).

Definition session_branches (w : unit) (o r : string)
  : unit * App.Fetch (list App.Branch) :=
  (w, App.Fetched [App.mkBranch "main" true]).

Definition session_workflows (w : unit) (o r : string) : unit * list Workflow :=
  (w, []).

Definition session_key (st : option App.State) (k : Key) : option App.State :=
  st ≫= (fun s =>
    snd <$> App.keypress unit session_ghApi session_orgs session_repos
              session_branches session_workflows tt s k).

(** The operator chooses [acme], its repository and the branch [main], and
    confirms the editor with Ctrl+A. *)
Definition session_editing : App.State :=
  let s0 := snd (App.showOrgSelector unit session_orgs tt App.initial) in
  let s1 := snd (App.onOrgSelected unit session_repos tt s0 acme) in
  let s2 := snd (App.onReposSelected unit session_branches tt s1 [acme_one]) in
  snd (App.onBranchSelected unit session_ghApi session_workflows tt s2
         acme_one "main").

Definition session_previewing : option App.State :=
  session_key (Some session_editing) (mkKey "a" false true).

(** Then the configuration is applied and the operator goes back, screen by
    screen, to the organisations. *)
Definition session_back_at_orgs : option App.State :=
  fold_left session_key
    [ mkKey "return" false false; mkKey "return" false false;
      mkKey "escape" false false; mkKey "escape" false false;
      mkKey "escape" false false ]
    session_previewing.

(** An editor seeded with a live configuration that has a [url], then
    edited: the first toggle is switched and a count is typed. *)
Definition seed_live : JSObject :=
  [ ("url", JStr "https://api.github.com/repos/acme/one/branches/main/protection");
    ("required_pull_request_reviews", default_reviews);
    ("enforce_admins", JBool false);
    ("required_signatures", JNull);
    ("lock_branch", JBool false) ].

Definition seeded : EditorState :=
  default default_editor (setProtection default_editor (Some seed_live)).

Definition seeded_and_edited : EditorState :=
  default seeded
    (editing seeded [KeyPressed (mkKey "return" false false); Typed 9 "2"]).

(** Escape in the editor of the session. *)
Definition session_cancelled : App.State :=
  default App.initial
    (session_key (Some session_editing) (mkKey "escape" false false)).

(** A remote service on which the branch is not protected. *)
Definition unprotected_ghApi (w : unit) (r : Request) : unit * ApiOutcome :=
  (w, Threw (ErrorObject "gh: Branch not protected (HTTP 404)")).

Definition session_at_branches : App.State :=
  snd (App.onReposSelected unit session_branches tt
         (snd (App.onOrgSelected unit session_repos tt
                 (snd (App.showOrgSelector unit session_orgs tt App.initial))
                 acme))
         [acme_one]).

(** A configuration with a nested object and an array, for the listing of
    the preview. *)
Definition preview_config : JSVal :=
  JObj [ ("enforce_admins", JBool true);
         ("required_status_checks",
           JObj [ ("strict", JBool true);
                  ("contexts", JArr [ JStr "build"; JStr "test" ]) ]);
         ("restrictions", JNull) ].

(** * Properties *)

(** ** The batch apply *)

Section RemoteFacts.

Variable World : Type.
Variable ghApi : World -> Request -> World * ApiOutcome.

Local Abbreviation batch := (applyProtectionToMultiple World ghApi).
Local Abbreviation update := (updateBranchProtection World ghApi).

Lemma apply_target_pushed protection w results target :
  apply_target World ghApi protection (w, results) target =
  (fst (update w (target_owner target) (target_repo target)
          (target_branch target) protection),
   results ++
   [pushed target
      (snd (update w (target_owner target) (target_repo target)
              (target_branch target) protection))]).
Proof.
  unfold apply_target, pushed.
  destruct (update w _ _ _ protection) as [w' [v | e]]; reflexivity.
Qed.

(** The loop only ever appends to the results it started with. *)
Lemma fold_apply_target protection targets : forall w acc,
  fold_left (apply_target World ghApi protection) targets (w, acc) =
  (fst (batch w targets protection),
   acc ++ snd (batch w targets protection)).
Proof.
  unfold applyProtectionToMultiple.
  induction targets as [| target rest IH]; intros w acc; cbn [fold_left].
  - by rewrite app_nil_r.
  - rewrite !apply_target_pushed.
    rewrite (IH _ (acc ++ _)), (IH _ ([] ++ _)). cbn [fst snd].
    by rewrite <- app_assoc.
Qed.

Lemma batch_nil w protection : batch w [] protection = (w, []).
Proof. reflexivity. Qed.

Lemma batch_cons w target rest protection :
  batch w (target :: rest) protection =
  let step := update w (target_owner target) (target_repo target)
                (target_branch target) protection in
  (fst (batch (fst step) rest protection),
   pushed target (snd step) :: snd (batch (fst step) rest protection)).
Proof.
  unfold applyProtectionToMultiple at 1. cbn [fold_left].
  rewrite apply_target_pushed. by rewrite fold_apply_target.
Qed.

(** The world in which the call for the target at index [i] is made. *)
Lemma batch_take_S w targets protection i target :
  targets !! i = Some target ->
  fst (batch w (take (S i) targets) protection) =
  fst (update (fst (batch w (take i targets) protection))
         (target_owner target) (target_repo target) (target_branch target)
         protection).
Proof.
  revert w i. induction targets as [| t rest IH]; intros w i Hi; [done |].
  destruct i as [| i]; simpl in Hi.
  - injection Hi as ->. simpl. by rewrite batch_cons.
  - change (take (S (S i)) (t :: rest)) with (t :: take (S i) rest).
    change (take (S i) (t :: rest)) with (t :: take i rest).
    rewrite !batch_cons. simpl. by apply IH.
Qed.

Lemma batch_lookup w targets protection i target :
  targets !! i = Some target ->
  snd (batch w targets protection) !! i =
  Some (pushed target
          (snd (update (fst (batch w (take i targets) protection))
                  (target_owner target) (target_repo target)
                  (target_branch target) protection))).
Proof.
  revert w i. induction targets as [| t rest IH]; intros w i Hi; [done |].
  rewrite batch_cons. destruct i as [| i]; simpl in *.
  - by injection Hi as ->.
  - change (take (S i) (t :: rest)) with (t :: take i rest).
    rewrite batch_cons. simpl. by apply IH.
Qed.

Lemma batch_length w targets protection :
  length (snd (batch w targets protection)) = length targets.
Proof.
  revert w. induction targets as [| t rest IH]; intros w; [done |].
  rewrite batch_cons. simpl. by rewrite IH.
Qed.

End RemoteFacts.

(** The counters of the results view add up to the number of results. *)
Lemma count_results_from results : forall s f,
  fold_left
    (fun (c : nat * nat) (result : ApplyResult) =>
       if success result then (S (fst c), snd c) else (fst c, S (snd c)))
    results (s, f) =
  (s + fst (count_results results), f + snd (count_results results)).
Proof.
  unfold count_results.
  induction results as [| r rest IH]; intros s f; simpl.
  - f_equal; lia.
  - destruct (success r); simpl; rewrite IH; symmetry; rewrite IH; simpl;
      f_equal; lia.
Qed.

Lemma count_results_total results :
  fst (count_results results) + snd (count_results results) = length results.
Proof.
  induction results as [| r rest IH]; [done |].
  unfold count_results. simpl.
  destruct (success r); simpl; rewrite count_results_from; simpl; lia.
Qed.

(** C1.  The batch returns one result per target, in the order of the
    targets: the result at index [i] carries the repository and branch of
    the target at index [i], and reports how the one call made for that
    target ended (success without a message when it returned, failure with
    a message when it threw).  That call is made in the world left by the
    calls for the targets before it, whatever their outcomes were.  The
    counters of the results view add up to the number of targets. *)
Theorem applyProtectionToMultiple_one_result_per_target :
  forall (World : Type) (ghApi : World -> Request -> World * ApiOutcome)
         (w : World) (targets : list Target) (protection : JSObject),
    let results := snd (applyProtectionToMultiple World ghApi w targets protection) in
    length results = length targets /\
    (forall i target, targets !! i = Some target ->
       exists result,
         results !! i = Some result /\
         repo result =
           mkRepository (target_repo target)
             (target_owner target +:+ "/" +:+ target_repo target)
             (target_owner target) /\
         branch result = target_branch target /\
         let before :=
           fst (applyProtectionToMultiple World ghApi w (take i targets) protection) in
         match snd (updateBranchProtection World ghApi before
                      (target_owner target) (target_repo target)
                      (target_branch target) protection) with
         | Returned _ => success result = true /\ error result = None
         | Threw e =>
             success result = false /\
             error result = Some (message_of e "Unknown error")
         end) /\
    fst (count_results results) + snd (count_results results) = length targets.
Proof.
  intros World ghApi w targets protection results. subst results.
  split; [apply batch_length |]. split.
  - intros i target Hi. eexists. split; [by apply batch_lookup |].
    simpl. repeat split.
    destruct (snd (updateBranchProtection _ _ _ _ _ _ _)); by simpl.
  - rewrite count_results_total. apply batch_length.
Qed.

Example batch_goes_on_after_a_failure :
  map (fun r => (full_name (repo r), success r, error r))
    (snd (applyProtectionToMultiple unit second_fails tt three_targets
            createDefaultProtection)) =
  [ ("acme/one", true, None); ("acme/two", false, Some "Branch not found");
    ("acme/three", true, None) ].
Proof. reflexivity. Qed.

Lemma applyProtectionToMultiple_witness :
  length (snd (applyProtectionToMultiple unit second_fails tt three_targets
                 createDefaultProtection)) = 3.
Proof.
  exact (proj1 (applyProtectionToMultiple_one_result_per_target unit
                  second_fails tt three_targets createDefaultProtection)).
Defined.

(** ** The diff *)

Lemma fold_diff_key_added current proposed keys : forall d,
  added (fold_left (diff_key current proposed) keys d) =
  added d ++
  List.filter
    (fun key =>
       negb (String.eqb key "url")
       && is_undefined (currentVal current key)
       && negb (is_undefined (get key proposed)))
    keys.
Proof.
  induction keys as [| key rest IH]; intros d; cbn [fold_left List.filter].
  - by rewrite app_nil_r.
  - rewrite IH. unfold diff_key.
    destruct (String.eqb key "url"); cbn [negb andb]; [done |].
    destruct (is_undefined (currentVal current key)),
      (is_undefined (get key proposed)); cbn [negb andb added];
      try (by destruct (differ _ _)); try done.
    by rewrite <- app_assoc.
Qed.

(** The scenario, as the claim states it, does not hold. *)
Lemma diffProtection_live_null_not_added :
  ~ (changed (diffProtection (Some scenario_live) scenario_proposed)
       = ["enforce_admins"] /\
     added (diffProtection (Some scenario_live) scenario_proposed)
       = ["required_pull_request_reviews"]).
Proof. intros [H _]. vm_compute in H. discriminate H. Qed.

(** C2, amended.  For the live configuration whose reviews are [null] the
    diff lists both keys as changed and nothing as added; when the live
    configuration has no such key the reviews are added.  In general the
    added keys are the keys other than [url] whose live value is
    [undefined] and whose proposed value is not. *)
Theorem diffProtection_added_when_live_undefined :
  diffProtection (Some scenario_live) scenario_proposed
    = mkDiff [] [] ["enforce_admins"; "required_pull_request_reviews"] /\
  diffProtection (Some scenario_live_without_reviews) scenario_proposed
    = mkDiff ["required_pull_request_reviews"] [] ["enforce_admins"] /\
  forall current proposed,
    added (diffProtection current proposed) =
    List.filter
      (fun key =>
         negb (String.eqb key "url")
         && is_undefined (currentVal current key)
         && negb (is_undefined (get key proposed)))
      (diff_keys current proposed).
Proof.
  split; [by vm_compute |]. split; [by vm_compute |].
  intros current proposed. unfold diffProtection.
  by rewrite fold_diff_key_added.
Qed.

(** ** Normalisation and submission *)

Lemma transformProtectionResponse_object (raw : JSObject) :
  transformProtectionResponse (JObj raw) =
  Normal
    [ ("url", get "url" raw);
      ("required_pull_request_reviews", get "required_pull_request_reviews" raw);
      ("required_status_checks", get "required_status_checks" raw);
      ("enforce_admins", extractEnabled (get "enforce_admins" raw));
      ("required_linear_history",
        extractEnabled (get "required_linear_history" raw));
      ("allow_force_pushes", extractEnabled (get "allow_force_pushes" raw));
      ("allow_deletions", extractEnabled (get "allow_deletions" raw));
      ("block_creations", extractEnabled (get "block_creations" raw));
      ("required_conversation_resolution",
        extractEnabled (get "required_conversation_resolution" raw));
      ("restrictions", get "restrictions" raw);
      ("required_signatures",
        if truthy (get "required_signatures" raw)
        then JObj [("enabled", extractEnabled (get "required_signatures" raw))]
        else JNull);
      ("lock_branch", extractEnabled (get "lock_branch" raw)) ].
Proof. reflexivity. Qed.

(** A response without a body makes the transformation throw. *)
Lemma transformProtectionResponse_null :
  transformProtectionResponse JNull = Throw TypeError.
Proof. reflexivity. Qed.

Lemma extractEnabled_cases (v : JSVal) :
  match v with
  | JUndefined | JNull => extractEnabled v = JNull
  | JObj o =>
      extractEnabled v = if has "enabled" o then get "enabled" o else JObj o
  | _ => extractEnabled v = v
  end.
Proof. by destruct v. Qed.

Ltac each_flag H :=
  cbn [In boolean_flags] in H;
  repeat (destruct H as [<- | H]; [| try contradiction]).

(** A missing toggle is normalised to [null] and a string is kept as it
    is: neither becomes [false]. *)
Lemma transformProtectionResponse_flag_not_false :
  exists n,
    transformProtectionResponse (JObj [("allow_deletions", JStr "yes")])
      = Normal n /\
    get "enforce_admins" n = JNull /\
    get "allow_deletions" n = JStr "yes" /\
    get "enforce_admins" n <> JBool false /\
    get "allow_deletions" n <> JBool false.
Proof. eexists. split; [reflexivity |]. by vm_compute. Qed.

(** C4, amended.  The transformation of a record never throws.  A toggle
    that is a boolean is kept; an object with an [enabled] property gives
    the value of that property; a missing, [undefined] or [null] toggle
    gives [null]; any other value is kept as it is. *)
Theorem transformProtectionResponse_record_flags :
  forall raw : JSObject,
    exists n,
      transformProtectionResponse (JObj raw) = Normal n /\
      forall k, In k boolean_flags ->
        match get k raw with
        | JUndefined | JNull => get k n = JNull
        | JBool b => get k n = JBool b
        | JObj o => get k n = if has "enabled" o then get "enabled" o else JObj o
        | v => get k n = v
        end.
Proof.
  intros raw. eexists. split; [apply transformProtectionResponse_object |].
  intros k Hk. each_flag Hk; cbn [get String.eqb Ascii.eqb Bool.eqb];
    match goal with |- context [get ?key raw] => by destruct (get key raw) end.
Qed.

Lemma transformProtectionResponse_record_flags_witness :
  exists n,
    transformProtectionResponse
      (JObj [("enforce_admins", JObj [("enabled", JBool true)])]) = Normal n /\
    get "enforce_admins" n = JBool true /\
    get "allow_deletions" n = JNull.
Proof.
  destruct (transformProtectionResponse_record_flags
              [("enforce_admins", JObj [("enabled", JBool true)])])
    as [n [Hn Hflags]].
  exists n. split; [exact Hn |]. split.
  - exact (Hflags "enforce_admins" ltac:(cbn; tauto)).
  - exact (Hflags "allow_deletions" ltac:(cbn; tauto)).
Defined.

(** Submitting, normalising and submitting again gives back the submitted
    value of a toggle, unless the toggle is an object with an [enabled]
    property. *)
Lemma submit_normalise_submit (v d : JSVal) :
  nullish d = false ->
  match v with JObj o => has "enabled" o = false | _ => True end ->
  match d with JObj o => has "enabled" o = false | _ => True end ->
  coalesce (extractEnabled (coalesce v d)) d = coalesce v d.
Proof.
  intros Hd Hv Hdo. unfold coalesce.
  destruct v; cbn [nullish extractEnabled];
    try (destruct d; try discriminate Hd; cbn [nullish extractEnabled];
         try done; by rewrite Hdo).
  all: try done.
  by rewrite Hv.
Qed.

Lemma plain_flag_no_enabled (v : JSVal) :
  plain_flag v = true ->
  match v with JObj o => has "enabled" o = false | _ => True end.
Proof. destruct v; try done. cbn. by destruct (has "enabled" props). Qed.

Lemma plain_flags_get (c : JSObject) (k : string) :
  plain_flags c = true -> In k boolean_flags -> plain_flag (get k c) = true.
Proof.
  unfold plain_flags. rewrite forallb_forall. intros H Hk. by apply H.
Qed.

(** The typed configurations are among the plain ones. *)
Lemma typed_flags_plain (c : JSObject) :
  typed_flags c = true -> plain_flags c = true.
Proof.
  unfold typed_flags, plain_flags. rewrite !forallb_forall.
  intros H k Hk. specialize (H k Hk). by destruct (get k c).
Qed.

(** C8.  For a configuration none of whose toggles is an object with an
    [enabled] property (so for every configuration whose toggles have
    their declared type, [boolean] or [undefined]), building the
    submission, normalising it and building the submission again gives,
    for each of the six toggles, the value of the first submission. *)
Theorem cleanInput_normalise_idempotent_on_flags :
  forall c : JSObject,
    plain_flags c = true ->
    exists n,
      transformProtectionResponse (JObj (cleanInput c)) = Normal n /\
      forall k, In k boolean_flags ->
        get k (cleanInput n) = get k (cleanInput c).
Proof.
  intros c Hc. eexists. split; [apply transformProtectionResponse_object |].
  intros k Hk. pose proof (fun k Hk => plain_flag_no_enabled _
                             (plain_flags_get c k Hc Hk)) as Hno.
  each_flag Hk; cbn [cleanInput get String.eqb Ascii.eqb Bool.eqb];
    apply submit_normalise_submit; try done;
    apply Hno; cbn; tauto.
Qed.

Lemma cleanInput_normalise_idempotent_on_flags_witness :
  exists n,
    transformProtectionResponse (JObj (cleanInput createDefaultProtection))
      = Normal n /\
    forall k, In k boolean_flags ->
      get k (cleanInput n) = get k (cleanInput createDefaultProtection).
Proof.
  apply (cleanInput_normalise_idempotent_on_flags createDefaultProtection).
  reflexivity.
Defined.

(** The condition is needed: a toggle in the nested form is flattened by
    the normalisation. *)
Example nested_flag_not_idempotent :
  exists n,
    transformProtectionResponse
      (JObj (cleanInput [("enforce_admins", JObj [("enabled", JBool true)])]))
      = Normal n /\
    get "enforce_admins" (cleanInput n) = JBool true /\
    get "enforce_admins"
      (cleanInput [("enforce_admins", JObj [("enabled", JBool true)])])
      = JObj [("enabled", JBool true)].
Proof. eexists. split; [reflexivity |]. by vm_compute. Qed.

(** ** The template store *)

Lemma loadTemplate_saveTemplate dir name p desc now :
  exists written,
    loadTemplate (fst (saveTemplate dir name p desc now)) name = Some written /\
    template_name written = name /\
    description written = description (snd (saveTemplate dir name p desc now)) /\
    created_at written = created_at (snd (saveTemplate dir name p desc now)) /\
    updated_at written = updated_at (snd (saveTemplate dir name p desc now)).
Proof.
  unfold saveTemplate, loadTemplate. cbn [fst snd].
  rewrite lookup_insert_eq. eexists. split; [reflexivity |]. by cbn.
Qed.

(** Saving under another name leaves a template as it is. *)
Lemma loadTemplate_saveTemplate_other dir name other p desc now :
  name <> other ->
  loadTemplate (fst (saveTemplate dir name p desc now)) other
  = loadTemplate dir other.
Proof.
  intros Hne. unfold saveTemplate, loadTemplate. cbn [fst].
  by rewrite lookup_insert_ne.
Qed.

Lemma saveTemplate_created_at dir name p desc now :
  created_at (snd (saveTemplate dir name p desc now)) =
  match loadTemplate dir name with
  | Some e => if String.eqb (created_at e) "" then now else created_at e
  | None => now
  end.
Proof. reflexivity. Qed.

Lemma saveTemplate_created_at_nonempty dir name p desc now :
  now <> "" -> created_at (snd (saveTemplate dir name p desc now)) <> "".
Proof.
  intros Hnow. rewrite saveTemplate_created_at.
  destruct (loadTemplate dir name) as [e |]; [| done].
  destruct (String.eqb_spec (created_at e) ""); done.
Qed.

(** The creation time of a template survives any number of later saves,
    under its name or under other names. *)
Lemma saves_keep_created_at l : forall dir name t,
  loadTemplate dir name = Some t ->
  created_at t <> "" ->
  exists t',
    loadTemplate (saves dir l) name = Some t' /\
    created_at t' = created_at t.
Proof.
  induction l as [| s rest IH]; intros dir name t Hload Hcreated.
  - by exists t.
  - unfold saves. cbn [fold_left]. fold (saves
      (fst (saveTemplate dir (save_name s) (save_protection s)
              (save_description s) (save_now s))) rest).
    destruct (decide (save_name s = name)) as [-> | Hne].
    + destruct (loadTemplate_saveTemplate dir name (save_protection s)
                  (save_description s) (save_now s))
        as [written [Hwritten [_ [_ [Hc _]]]]].
      rewrite saveTemplate_created_at, Hload in Hc.
      destruct (String.eqb_spec (created_at t) ""); [done |].
      destruct (IH _ name written Hwritten) as [t' [Ht' Hc']];
        [by rewrite Hc |].
      exists t'. split; [done |]. by rewrite Hc', Hc.
    + apply (IH _ name t); [| done].
      by rewrite loadTemplate_saveTemplate_other.
Qed.

(** C9.  A save under a name with no template sets both timestamps to the
    time of the save.  A save under a name that was saved before keeps the
    creation time of the earlier save and sets the update time to the time
    of the new save.  (The clock never gives an empty string.) *)
Theorem saveTemplate_timestamps :
  forall (dir : gmap string File) (name : string) (p1 p2 : JSObject)
         (desc1 desc2 : option string) (now1 now2 : string),
    now1 <> "" ->
    let first := saveTemplate dir name p1 desc1 now1 in
    let second := saveTemplate (fst first) name p2 desc2 now2 in
    (loadTemplate dir name = None ->
       created_at (snd first) = now1 /\ updated_at (snd first) = now1) /\
    created_at (snd second) = created_at (snd first) /\
    updated_at (snd second) = now2.
Proof.
  intros dir name p1 p2 desc1 desc2 now1 now2 Hnow first second.
  subst first second. split; [| split].
  - intros Hnone. rewrite saveTemplate_created_at, Hnone. done.
  - rewrite saveTemplate_created_at.
    destruct (loadTemplate_saveTemplate dir name p1 desc1 now1)
      as [written [-> [_ [_ [Hcreated _]]]]].
    rewrite Hcreated.
    pose proof (saveTemplate_created_at_nonempty dir name p1 desc1 now1 Hnow).
    by destruct (String.eqb_spec
                   (created_at (snd (saveTemplate dir name p1 desc1 now1))) "").
  - reflexivity.
Qed.

Lemma saveTemplate_timestamps_witness :
  created_at
    (snd (saveTemplate
            (fst (saveTemplate ∅ "basic" createDefaultProtection None
                    "2024-01-01T00:00:00.000Z"))
            "basic" createDefaultProtection None "2024-01-01T00:00:00.010Z"))
  = created_at
      (snd (saveTemplate ∅ "basic" createDefaultProtection None
              "2024-01-01T00:00:00.000Z")).
Proof.
  refine (proj1 (proj2 (saveTemplate_timestamps ∅ "basic"
            createDefaultProtection createDefaultProtection None None
            "2024-01-01T00:00:00.000Z" "2024-01-01T00:00:00.010Z" _))).
  discriminate.
Defined.

(** C10.  The description of the saved template is the one passed when it
    is passed and not empty; otherwise it is the description of the
    template stored under that name, if there is one.  The file written
    holds that description. *)
Theorem saveTemplate_description :
  forall (dir : gmap string File) (name : string) (p : JSObject)
         (desc : option string) (now : string),
    let saved := snd (saveTemplate dir name p desc now) in
    (forall text, desc = Some text -> text <> "" ->
       description saved = Some text) /\
    (desc = None \/ desc = Some "" ->
       description saved = loadTemplate dir name ≫= description) /\
    loadTemplate (fst (saveTemplate dir name p desc now)) name ≫= description
      = description saved.
Proof.
  intros dir name p desc now saved. split; [| split].
  - intros text -> Htext. subst saved. cbn.
    by destruct (String.eqb_spec text "").
  - by intros [-> | ->].
  - destruct (loadTemplate_saveTemplate dir name p desc now)
      as [written [-> [_ [Hdesc _]]]].
    exact Hdesc.
Qed.

Lemma saveTemplate_description_witness :
  description
    (snd (saveTemplate
            (fst (saveTemplate ∅ "basic" createDefaultProtection
                    (Some "Basic protection") "2024-01-01T00:00:00.000Z"))
            "basic" createDefaultProtection None "2024-01-01T00:00:00.010Z"))
  = Some "Basic protection".
Proof.
  rewrite (proj1 (proj2 (saveTemplate_description
             (fst (saveTemplate ∅ "basic" createDefaultProtection
                     (Some "Basic protection") "2024-01-01T00:00:00.000Z"))
             "basic" createDefaultProtection None
             "2024-01-01T00:00:00.010Z")) (or_introl eq_refl)).
  reflexivity.
Defined.

(** ** Objects *)

Lemma get_set_eq key v (o : JSObject) : get key (set key v o) = v.
Proof.
  induction o as [| [k w] rest IH]; cbn [set get].
  - by rewrite String.eqb_refl.
  - destruct (String.eqb_spec k key) as [-> | Hne]; cbn [get].
    + by rewrite String.eqb_refl.
    + by destruct (String.eqb_spec k key).
Qed.

Lemma get_set_ne key other v (o : JSObject) :
  key <> other -> get other (set key v o) = get other o.
Proof.
  intros Hne. induction o as [| [k w] rest IH]; cbn [set get].
  - by destruct (String.eqb_spec key other).
  - destruct (String.eqb_spec k key) as [-> | Hk]; cbn [get].
    + by destruct (String.eqb_spec key other).
    + by rewrite IH.
Qed.

Lemma has_set_ne key other v (o : JSObject) :
  key <> other -> has other (set key v o) = has other o.
Proof.
  intros Hne. induction o as [| [k w] rest IH]; cbn [set has].
  - by destruct (String.eqb_spec key other).
  - destruct (String.eqb_spec k key) as [-> | Hk]; cbn [has].
    + by destruct (String.eqb_spec key other).
    + by rewrite IH.
Qed.

(** ** The workflow picker *)
















(** ** Appending strings *)

Lemma string_app_cons c (s t : string) : String c s +:+ t = String c (s +:+ t).
Proof. reflexivity. Qed.

Lemma string_app_nil_l (t : string) : "" +:+ t = t.
Proof. reflexivity. Qed.

Lemma string_app_nil_r (s : string) : s +:+ "" = s.
Proof.
  induction s as [| c s IH]; [done |]. rewrite string_app_cons. by f_equal.
Qed.

Lemma string_app_assoc (a b c : string) : (a +:+ b) +:+ c = a +:+ (b +:+ c).
Proof.
  induction a as [| x a IH]; [done |]. rewrite !string_app_cons. by f_equal.
Qed.

(** ** The count field *)

Example parseInt_minus_one : parseInt "-1" = Finite (-1).
Proof. reflexivity. Qed.

Example parseInt_text : parseInt "two" = NaN.
Proof. reflexivity. Qed.

Example parseInt_empty : parseInt "" = NaN.
Proof. reflexivity. Qed.

(** A text starting with digits parses as the number they write, whatever
    follows them: a fraction, letters, an exponent, a hexadecimal prefix. *)
Example parseInt_prefix : parseInt " 12abc" = Finite 12.
Proof. reflexivity. Qed.

Example parseInt_fraction : parseInt "2.9" = Finite 2.
Proof. reflexivity. Qed.

Example parseInt_exponent : parseInt "1e3" = Finite 1.
Proof. reflexivity. Qed.

Example parseInt_hexadecimal : parseInt "0x1F" = Finite 0.
Proof. reflexivity. Qed.

(** The sign of a zero does not make it negative. *)
Example parseInt_minus_zero : parseInt "-0" = Finite 0.
Proof. reflexivity. Qed.

(** A run of digits too long for a double is [Infinity], and is accepted
    as such. *)
Example parseInt_Infinity :
  parseInt (string_of_list_ascii (repeat "9"%char 400)) = Infinite false /\
  (get reviews_key
     <$> (protection
            <$> onInput default_editor 9
                  (string_of_list_ascii (repeat "9"%char 400))))
  = Some (JObj [ ("dismiss_stale_reviews", JBool false);
                 ("require_code_owner_reviews", JBool false);
                 ("required_approving_review_count", JInfinity) ]).
Proof. split; vm_compute; reflexivity. Qed.

(** Above [2^53] the number is the nearest double. *)
Example parseInt_rounds :
  parseInt "9007199254740993" = Finite 9007199254740992.
Proof. vm_compute. reflexivity. Qed.

Lemma nearest_double_exact (n : Z) :
  (n < 2 ^ 53)%Z -> nearest_double n = Some n.
Proof.
  intros Hn. unfold nearest_double.
  by destruct (Z.ltb_spec n (2 ^ 53)); [| lia].
Qed.

Lemma digit_is_no_white_space (c : ascii) (s : string) :
  is_Some (digit_of c) -> strip_any white_space (String c s) = None.
Proof.
  intros [d Hd].
  destruct c as [[] [] [] [] [] [] [] []]; vm_compute in Hd;
    try discriminate Hd; reflexivity.
Qed.

Lemma digit_is_no_sign (c : ascii) :
  is_Some (digit_of c) ->
  Ascii.eqb c "-"%char = false /\ Ascii.eqb c "+"%char = false.
Proof.
  intros [d Hd].
  destruct c as [[] [] [] [] [] [] [] []]; vm_compute in Hd;
    try discriminate Hd; by split.
Qed.

Lemma trimStart_digit (c : ascii) (s : string) :
  is_Some (digit_of c) -> trimStart (String c s) = String c s.
Proof.
  intros Hc. unfold trimStart. cbn [String.length trim_loop].
  by rewrite digit_is_no_white_space.
Qed.

Lemma digits_value_app (digits rest : string) : forall acc,
  decimal_digits digits = true ->
  starts_with_digit rest = false ->
  digits_value acc (digits +:+ rest) = digits_value acc digits.
Proof.
  induction digits as [| c digits IH]; intros acc Hdigits Hrest.
  - destruct rest as [| c rest]; [done |]. cbn [starts_with_digit] in Hrest.
    rewrite string_app_nil_l. cbn [digits_value].
    by destruct (digit_of c).
  - cbn [decimal_digits] in Hdigits. rewrite string_app_cons.
    cbn [digits_value]. destruct (digit_of c) as [d |]; [| done].
    by apply IH.
Qed.

(** What follows a run of digits is ignored. *)
Lemma leading_number_digits (digits rest : string) :
  digits <> "" ->
  decimal_digits digits = true ->
  starts_with_digit rest = false ->
  leading_number (digits +:+ rest) = Some (false, digits_value 0 digits).
Proof.
  intros Hne Hdigits Hrest.
  destruct digits as [| c digits]; [done |].
  assert (is_Some (digit_of c)) as Hc.
  { cbn [decimal_digits] in Hdigits. by destruct (digit_of c). }
  unfold leading_number. rewrite string_app_cons, trimStart_digit by done.
  destruct (digit_is_no_sign c Hc) as [-> ->]. cbn [fst snd].
  rewrite <- string_app_cons, digits_value_app by done.
  rewrite string_app_cons. cbn [starts_with_digit].
  by destruct Hc as [d ->].
Qed.

Lemma digits_value_nonneg (s : string) : forall acc,
  (0 <= acc)%Z -> (0 <= digits_value acc s)%Z.
Proof.
  induction s as [| c s IH]; intros acc Hacc; [done |].
  cbn [digits_value]. destruct (digit_of c) as [d |] eqn:Hd; [| done].
  apply IH. unfold digit_of in Hd.
  destruct (_ && _); [| done]. injection Hd as <-. lia.
Qed.

Lemma leading_number_nonneg (val : string) (negative : bool) (n : Z) :
  leading_number val = Some (negative, n) -> (0 <= n)%Z.
Proof.
  unfold leading_number. destruct (starts_with_digit _); [| done].
  intros [= _ <-]. by apply digits_value_nonneg.
Qed.

(** Rounding keeps the sign. *)
Lemma nearest_double_nonneg (n v : Z) :
  (0 <= n)%Z -> nearest_double n = Some v -> (0 <= v)%Z.
Proof.
  intros Hn. unfold nearest_double.
  destruct (n <? 2 ^ 53)%Z; [by intros [= <-] |].
  match goal with
  | |- (if (Z.shiftl ?q ?e <? _)%Z then _ else _) = _ -> _ =>
      destruct (Z.shiftl q e <? 2 ^ 1024)%Z; [| done];
      intros [= <-]; apply Z.shiftl_nonneg
  end.
  pose proof (proj2 (Z.shiftr_nonneg n (Z.log2 n - 52)) Hn).
  destruct (_ || _); lia.
Qed.

Lemma nearest_double_pos (n v : Z) :
  (0 < n)%Z -> nearest_double n = Some v -> (0 < v)%Z.
Proof.
  intros Hn. unfold nearest_double.
  destruct (Z.ltb_spec n (2 ^ 53)) as [| Hbig]; [by intros [= <-] |].
  assert (53 <= Z.log2 n)%Z as Hlog.
  { rewrite <- (Z.log2_pow2 53) by lia. by apply Z.log2_le_mono. }
  pose proof (proj1 (Z.log2_spec n Hn)) as Hlow.
  assert (1 <= Z.shiftr n (Z.log2 n - 52))%Z as Hq.
  { rewrite Z.shiftr_div_pow2 by lia.
    apply Z.div_le_lower_bound; [apply Z.pow_pos_nonneg; lia |].
    rewrite Z.mul_1_r. etransitivity; [| exact Hlow].
    apply Z.pow_le_mono_r; lia. }
  match goal with
  | |- (if (Z.shiftl ?q ?e <? _)%Z then _ else _) = _ -> _ =>
      destruct (Z.shiftl q e <? 2 ^ 1024)%Z; [| done];
      intros [= <-]; rewrite Z.shiftl_mul_pow2 by lia;
      apply Z.mul_pos_pos; [| apply Z.pow_pos_nonneg; lia]
  end.
  destruct (_ || _); lia.
Qed.

(** The one number field of a field list is the count of approvals. *)
Lemma buildFields_number_field st fs f :
  buildFields st = Some fs ->
  In f fs ->
  type f = number ->
  key f = "required_approving_review_count" /\ parent f = Some reviews_key.
Proof.
  unfold buildFields. intros Hfs Hin Htype.
  destruct (truthy (get checks_key (protection st)));
    [destruct (contexts_text (get checks_key (protection st))) as [text |] |];
    cbn [mbind option_bind] in Hfs; try discriminate Hfs;
    injection Hfs as <-;
    destruct (truthy (get reviews_key (protection st)));
    try destruct (Nat.ltb 0 (length (workflows st)));
    cbn [In app] in Hin;
    repeat (destruct Hin as [Hin | Hin]; try contradiction);
    subst f; try discriminate Htype; done.
Qed.

(** What the count handler does with the value it accepts. *)
Lemma onInput_count_written st i field o num :
  key field = "required_approving_review_count" ->
  parent field = Some reviews_key ->
  get reviews_key (protection st) = JObj o ->
  updateProtectionFromField
    (with_fields st (<[i := with_value field num]> (fields st)))
    (with_value field num)
  = Some (with_protection
            (with_fields st (<[i := with_value field num]> (fields st)))
            (set reviews_key
               (JObj (set "required_approving_review_count" num o))
               (protection st))).
Proof.
  intros Hkey Hparent Ho.
  unfold updateProtectionFromField, parent_is.
  cbn [parent with_value key value protection with_fields].
  rewrite Hparent, Hkey, String.eqb_refl.
  cbn [String.eqb Ascii.eqb Bool.eqb]. rewrite Ho. cbn [truthy].
  unfold assign_nested. by rewrite Ho.
Qed.

(** C6.  An input on the number field changes nothing exactly when
    [parseInt] reads it as [NaN] or as a negative number, that is, when no
    digit follows the leading white space and the optional sign, or when
    the sign is a minus and the digits write a number other than zero:
    then the editor state, with the value of the field and the
    configuration, is what it was before.  Any other input is accepted and
    overwrites the count with the number that the leading digits write (as
    a double).  What follows the digits is ignored, so a text need not be
    a non-negative integer to be accepted. *)
Theorem onInput_count_written_unless_NaN_or_negative :
  forall (st : EditorState) (i : nat) (field : EditorField) (val : string),
    fields st !! i = Some field ->
    type field = number ->
    (leading_number val = None \/
     (exists n, leading_number val = Some (true, n) /\ n <> 0%Z) ->
     (parseInt val = NaN \/ parseInt val = Infinite true \/
      exists m, parseInt val = Finite m /\ (m < 0)%Z) /\
     onInput st i val = Some st) /\
    (forall (negative : bool) (n : Z) (o : JSObject),
       leading_number val = Some (negative, n) ->
       negative = false \/ n = 0%Z ->
       key field = "required_approving_review_count" ->
       parent field = Some reviews_key ->
       get reviews_key (protection st) = JObj o ->
       exists st',
         onInput st i val = Some st' /\
         get reviews_key (protection st')
         = JObj (set "required_approving_review_count"
                   (match nearest_double n with
                    | Some double => JNum double
                    | None => JInfinity
                    end) o) /\
         forall k, k <> reviews_key ->
           get k (protection st') = get k (protection st)) /\
    (forall digits rest : string,
       digits <> "" ->
       decimal_digits digits = true ->
       starts_with_digit rest = false ->
       leading_number (digits +:+ rest) = Some (false, digits_value 0 digits) /\
       ((digits_value 0 digits < 2 ^ 53)%Z ->
        nearest_double (digits_value 0 digits) = Some (digits_value 0 digits))).
Proof.
  intros st i field val Hfield Htype. split; [| split].
  - intros Hval.
    assert (parseInt val = NaN \/ parseInt val = Infinite true \/
            exists m, parseInt val = Finite m /\ (m < 0)%Z) as Hparse.
    { unfold parseInt. destruct Hval as [-> | [n [Hn Hne]]]; [by left |].
      pose proof (leading_number_nonneg val true n Hn) as Hpos. rewrite Hn.
      destruct (nearest_double n) as [v |] eqn:Hv; [| by right; left].
      right. right. exists (- v)%Z. split; [done |].
      assert (0 < v)%Z by (apply (nearest_double_pos n); [lia | done]). lia. }
    split; [exact Hparse |].
    unfold onInput. rewrite Hfield, Htype.
    destruct Hparse as [-> | [-> | [m [-> Hm]]]]; [done | done |].
    destruct (Z.leb_spec 0 m); [lia | done].
  - intros negative n o Hval Hsign Hkey Hparent Ho.
    pose proof (leading_number_nonneg val negative n Hval) as Hpos.
    set (num := match nearest_double n with
                | Some double => JNum double
                | None => JInfinity
                end).
    assert (onInput st i val
            = updateProtectionFromField
                (with_fields st (<[i := with_value field num]> (fields st)))
                (with_value field num)) as ->.
    { unfold onInput, parseInt. rewrite Hfield, Htype, Hval. subst num.
      destruct (nearest_double n) as [v |] eqn:Hv.
      - pose proof (nearest_double_nonneg n v Hpos Hv) as Hv0.
        destruct Hsign as [-> | ->].
        + destruct (Z.leb_spec 0 v); [done | lia].
        + rewrite nearest_double_exact in Hv by lia. injection Hv as <-.
          by destruct negative.
      - destruct Hsign as [-> | ->]; [done |].
        by rewrite nearest_double_exact in Hv by lia. }
    rewrite (onInput_count_written st i field o num) by done.
    eexists. split; [reflexivity |].
    cbn [protection with_protection]. split.
    + by rewrite get_set_eq.
    + intros k Hk. by rewrite get_set_ne.
  - intros digits rest Hne Hdigits Hrest. split.
    + by apply leading_number_digits.
    + apply nearest_double_exact.
Qed.

Lemma onInput_rejected_count_witness :
  onInput default_editor 9 "-1" = Some default_editor.
Proof.
  apply (proj1 (onInput_count_written_unless_NaN_or_negative default_editor 9
                  (mkField "required_approving_review_count"
                     "  Required approvals" number (JNum 1) (Some reviews_key))
                  "-1" eq_refl eq_refl)).
  right. exists 1%Z. split; [reflexivity | lia].
Defined.

(** A text that is not a non-negative integer, and is written all the
    same: the count was [1] and becomes [12]. *)
Lemma onInput_malformed_count_is_written :
  decimal_digits "12abc" = false /\
  get reviews_key (protection default_editor)
  = JObj [ ("dismiss_stale_reviews", JBool false);
           ("require_code_owner_reviews", JBool false);
           ("required_approving_review_count", JNum 1) ] /\
  (protection <$> onInput default_editor 9 "12abc")
  = Some (set reviews_key
            (JObj [ ("dismiss_stale_reviews", JBool false);
                    ("require_code_owner_reviews", JBool false);
                    ("required_approving_review_count", JNum 12) ])
            createDefaultProtection).
Proof. repeat split; reflexivity. Qed.

(** An accepted input, by contrast, is written to the field and to the
    configuration. *)
Example onInput_accepted_count :
  (protection <$> onInput default_editor 9 "3")
  = Some (set reviews_key
            (JObj [ ("dismiss_stale_reviews", JBool false);
                    ("require_code_owner_reviews", JBool false);
                    ("required_approving_review_count", JNum 3) ])
            createDefaultProtection).
Proof. reflexivity. Qed.

(** ** The screen flow *)

Section FlowFacts.

Variable World : Type.
Variable ghApi : World -> Request -> World * ApiOutcome.
Variable getOrganizations : World -> World * App.Fetch (list App.Organization).
Variable getOrgRepos : World -> string -> World * App.Fetch (list Repository).
Variable getRepoBranches :
  World -> string -> string -> World * App.Fetch (list App.Branch).
Variable getRepoWorkflows : World -> string -> string -> World * list Workflow.

Lemma showRepoSelector_selections w st :
  selections (snd (App.showRepoSelector World getOrgRepos w st)) = selections st.
Proof.
  unfold App.showRepoSelector. destruct (App.org st) as [o |]; [| done].
  by destruct (getOrgRepos w (App.login o)) as [w' [rs | e]].
Qed.

Lemma showBranchSelector_selections w st :
  selections (snd (App.showBranchSelector World getRepoBranches w st))
  = selections st.
Proof.
  unfold App.showBranchSelector.
  destruct (App.selectedRepos st) as [| first rest] eqn:Hrepos; [done |].
  destruct (getRepoBranches w (owner_login first) (name first))
    as [w' [bs | e]]; unfold selections; cbn; by rewrite Hrepos.
Qed.

Lemma showEditor_selections w st :
  selections (snd (fst (App.showEditor World getRepoWorkflows w st)))
  = selections st.
Proof.
  unfold App.showEditor.
  destruct (createProtectionEditor ≫= _) as [ed |]; [| done].
  destruct (App.selectedRepos st) as [| first rest] eqn:Hrepos; [done |].
  destruct (getRepoWorkflows w (owner_login first) (name first)) as [w' ws].
  unfold selections; cbn; by rewrite Hrepos.
Qed.

(** C5, amended.  A selection stores what was selected and clears
    nothing: choosing an organisation changes the stored organisation
    only; choosing repositories changes the selected repositories only;
    choosing a branch stores the branch and, when the live configuration
    could be fetched, stores it (otherwise the earlier one stays).
    Everything else among the selections, the two configurations and the
    results keeps its value, the shallower selections included. *)
Theorem selection_stores_and_keeps_the_rest :
  forall (w : World) (st : App.State),
    (forall o,
       selections (snd (App.onOrgSelected World getOrgRepos w st o)) =
       (Some o, App.selectedRepos st, App.branch st, App.currentProtection st,
        App.proposedProtection st, App.results st)) /\
    (forall rs,
       selections (snd (App.onReposSelected World getRepoBranches w st rs)) =
       (App.org st, rs, App.branch st, App.currentProtection st,
        App.proposedProtection st, App.results st)) /\
    (forall first b,
       selections
         (snd (App.onBranchSelected World ghApi getRepoWorkflows w st first b)) =
       (App.org st, App.selectedRepos st, Some b,
        match snd (getBranchProtection World ghApi w (owner_login first)
                     (name first) b) with
        | Normal live => live
        | Throw _ => App.currentProtection st
        end,
        App.proposedProtection st, App.results st)).
Proof.
  intros w st. split; [| split].
  - intros o. unfold App.onOrgSelected.
    by rewrite showRepoSelector_selections.
  - intros rs. unfold App.onReposSelected.
    by rewrite showBranchSelector_selections.
  - intros first b. unfold App.onBranchSelected.
    destruct (getBranchProtection World ghApi w (owner_login first)
                (name first) b) as [w1 [live | e]]; [| done].
    match goal with
    | |- context [App.showEditor World getRepoWorkflows w1 ?s] =>
        pose proof (showEditor_selections w1 s) as Hed;
        destruct (App.showEditor World getRepoWorkflows w1 s)
          as [[w2 st2] [thrown |]]
    end; cbn [fst snd] in *; exact Hed.
Qed.

End FlowFacts.

(** After a full round of the session the operator chooses another
    organisation: the repositories, the branch, both configurations and the
    results of the round are all still there. *)
Lemma onOrgSelected_clears_nothing :
  exists st,
    session_back_at_orgs = Some st /\
    App.selectedRepos (snd (App.onOrgSelected unit session_repos tt st globex))
      = [acme_one] /\
    App.branch (snd (App.onOrgSelected unit session_repos tt st globex))
      = Some "main" /\
    App.currentProtection
      (snd (App.onOrgSelected unit session_repos tt st globex)) <> None /\
    App.proposedProtection
      (snd (App.onOrgSelected unit session_repos tt st globex)) <> None /\
    App.results (snd (App.onOrgSelected unit session_repos tt st globex)) <> [].
Proof.
  eexists. split; [by vm_compute |]. by vm_compute.
Qed.

Lemma selection_stores_and_keeps_the_rest_witness :
  selections (snd (App.onOrgSelected unit session_repos tt session_editing globex))
  = (Some globex, App.selectedRepos session_editing, App.branch session_editing,
     App.currentProtection session_editing,
     App.proposedProtection session_editing, App.results session_editing).
Proof.
  exact (proj1 (selection_stores_and_keeps_the_rest unit session_ghApi
                  session_repos session_branches session_workflows tt
                  session_editing) globex).
Defined.

(** ** What the editor writes *)

Lemma untouched_refl p : untouched p p.
Proof. by intros k _. Qed.

Lemma untouched_trans p1 p2 p3 :
  untouched p1 p2 -> untouched p2 p3 -> untouched p1 p3.
Proof.
  intros H12 H23 k Hk. destruct (H12 k Hk) as [<- <-]. by apply H23.
Qed.

Lemma untouched_set key v p : In key editable_keys -> untouched p (set key v p).
Proof.
  intros Hkey k Hk. assert (key <> k) by (by intros ->).
  by rewrite get_set_ne, has_set_ne.
Qed.

Lemma existsb_eqb_In (x : string) (l : list string) :
  existsb (String.eqb x) l = true -> In x l.
Proof.
  rewrite existsb_exists. intros [y [Hy Heq]].
  apply String.eqb_eq in Heq. by subst.
Qed.

Lemma renderFields_protection st st' :
  renderFields st = Some st' -> protection st' = protection st.
Proof.
  unfold renderFields. destruct (buildFields st); [| done]. by intros [= <-].
Qed.

Lemma assign_nested_untouched outer inner v p p' :
  In outer editable_keys ->
  assign_nested outer inner v p = Some p' -> untouched p p'.
Proof.
  unfold assign_nested. intros Hin.
  destruct (get outer p); try done. intros [= <-]. by apply untouched_set.
Qed.

Lemma reviews_key_editable : In reviews_key editable_keys.
Proof. cbn. tauto. Qed.

Lemma checks_key_editable : In checks_key editable_keys.
Proof. cbn. tauto. Qed.

Lemma boolean_flags_editable k : In k boolean_flags -> In k editable_keys.
Proof. intros H. by do 2 right. Qed.

Create HintDb editor.

#[local] Hint Resolve untouched_refl untouched_set assign_nested_untouched
  reviews_key_editable checks_key_editable boolean_flags_editable
  existsb_eqb_In : editor.

Ltac split_ifs H :=
  repeat match type of H with
         | context [if ?b then _ else _] => destruct b eqn:?
         end.

Ltac bind_step H :=
  match type of H with
  | mbind _ ?m = Some _ =>
      let E := fresh "Hbind" in
      destruct m eqn:E; cbn [mbind option_bind] in H; [| discriminate H]
  end.

Lemma updateProtectionFromField_untouched st field st' :
  updateProtectionFromField st field = Some st' ->
  untouched (protection st) (protection st').
Proof.
  unfold updateProtectionFromField. intros H.
  destruct (parent_is field reviews_key);
    [| destruct (parent_is field checks_key)].
  - destruct (String.eqb (key field) "rpr_enabled").
    { apply renderFields_protection in H. rewrite H. cbn. auto with editor. }
    destruct (truthy (get reviews_key (protection st)));
      [| injection H as <-; auto with editor].
    split_ifs H; try bind_step H; injection H as <-; cbn;
      eauto with editor.
  - destruct (String.eqb (key field) "rsc_enabled").
    { apply renderFields_protection in H. rewrite H. cbn. auto with editor. }
    destruct (truthy (get checks_key (protection st)));
      [| injection H as <-; auto with editor].
    destruct (String.eqb (key field) "strict").
    { bind_step H. injection H as <-. cbn. eauto with editor. }
    destruct (String.eqb (key field) "contexts");
      [| injection H as <-; auto with editor].
    destruct (value field); try discriminate H.
    bind_step H. injection H as <-. cbn. eauto with editor.
  - destruct (existsb (String.eqb (key field)) boolean_flags) eqn:Hflag;
      injection H as <-; cbn; auto with editor.
Qed.

Lemma add_check_untouched acc name p p' :
  acc = Some p -> add_check acc name = Some p' -> untouched p p'.
Proof.
  intros ->. unfold add_check. cbn [mbind option_bind].
  destruct (contexts_includes _ name) as [[|] |]; try done.
  - intros [= <-]. auto with editor.
  - destruct (prop (get checks_key p) "contexts"); try done.
    eauto with editor.
Qed.

Lemma add_check_None names : fold_left add_check names None = None.
Proof. by induction names. Qed.

Lemma add_check_fold_untouched names : forall p p',
  fold_left add_check names (Some p) = Some p' -> untouched p p'.
Proof.
  induction names as [| name rest IH]; intros p p' H; cbn [fold_left] in H.
  - injection H as <-. auto with editor.
  - destruct (add_check (Some p) name) as [p1 |] eqn:Hstep.
    + eapply untouched_trans; [by eapply add_check_untouched | by apply IH].
    + by rewrite add_check_None in H.
Qed.

Lemma addWorkflowChecks_untouched st names st' :
  addWorkflowChecks st names = Some st' ->
  untouched (protection st) (protection st').
Proof.
  unfold addWorkflowChecks. intros H. bind_step H.
  apply renderFields_protection in H. rewrite H. cbn.
  eapply untouched_trans; [| by eapply add_check_fold_untouched].
  destruct (truthy _); auto with editor.
Qed.

Lemma showWorkflowModal_protection st st' :
  showWorkflowModal st = Some st' -> protection st' = protection st.
Proof.
  unfold showWorkflowModal. intros H.
  destruct (Nat.eqb _ 0); [by injection H as <- |].
  bind_step H. by injection H as <-.
Qed.

(** A key press leaves the keys that the editor does not write as they
    are, and what it hands to [onSave] is the configuration of the
    editor. *)
Lemma handleKey_untouched st k st' event :
  handleKey st k = Some (st', event) ->
  untouched (protection st) (protection st') /\
  forall p, event = Some (onSave p) -> p = protection st.
Proof.
  unfold handleKey. intros H.
  destruct (modalShown st).
  - split; [| intros p ->; split_ifs H; try bind_step H;
               try destruct (_ !! _); discriminate H].
    destruct (is_key k "escape").
    { bind_step H. injection H as <- _.
      apply renderFields_protection in Hbind. rewrite Hbind. auto with editor. }
    destruct (is_key k "up" || is_key k "k");
      [injection H as <- _; auto with editor |].
    destruct (is_key k "down" || is_key k "j");
      [injection H as <- _; auto with editor |].
    destruct (is_key k "space").
    { destruct (_ !! _); injection H as <- _; auto with editor. }
    destruct (is_key k "return" || is_key k "enter");
      [| injection H as <- _; auto with editor].
    bind_step H. injection H as <- _.
    destruct (Nat.ltb 0 _).
    + by apply addWorkflowChecks_untouched in Hbind.
    + apply renderFields_protection in Hbind. rewrite Hbind. auto with editor.
  - destruct (ctrl k && is_key k "a").
    { injection H as <- <-. split; [auto with editor | by intros p [= <-]]. }
    destruct (is_key k "tab").
    { bind_step H. injection H as <- <-.
      apply renderFields_protection in Hbind. rewrite Hbind.
      split; [auto with editor | done]. }
    destruct (is_key k "return" || is_key k "enter").
    { destruct (fields st !! focusIndex st) as [field |];
        [| injection H as <- <-; split; [auto with editor | done]].
      destruct (String.eqb (key field) "apply").
      { injection H as <- <-. split; [auto with editor | by intros p [= <-]]. }
      destruct (type field).
      - bind_step H. bind_step H. injection H as <- <-.
        apply renderFields_protection in Hbind0. rewrite Hbind0.
        apply updateProtectionFromField_untouched in Hbind. by split.
      - injection H as <- <-. split; [auto with editor | done].
      - injection H as <- <-. split; [auto with editor | done].
      - bind_step H. injection H as <- <-.
        apply showWorkflowModal_protection in Hbind. rewrite Hbind.
        split; [auto with editor | done]. }
    destruct (is_key k "escape").
    { injection H as <- <-. split; [auto with editor | done]. }
    destruct (is_key k "up" || is_key k "k").
    { bind_step H. injection H as <- <-.
      apply renderFields_protection in Hbind. rewrite Hbind.
      split; [auto with editor | done]. }
    destruct (is_key k "down" || is_key k "j").
    { bind_step H. injection H as <- <-.
      apply renderFields_protection in Hbind. rewrite Hbind.
      split; [auto with editor | done]. }
    injection H as <- <-. split; [auto with editor | done].
Qed.

Lemma onInput_untouched st i val st' :
  onInput st i val = Some st' -> untouched (protection st) (protection st').
Proof.
  unfold onInput. intros H.
  destruct (fields st !! i) as [field |];
    [| injection H as <-; auto with editor].
  destruct (type field); try (injection H as <-; auto with editor).
  - destruct (parseInt val) as [| n | [|]];
      try (injection H as <-; auto with editor).
    + destruct (0 <=? n)%Z; [| injection H as <-; auto with editor].
      by apply updateProtectionFromField_untouched in H.
    + by apply updateProtectionFromField_untouched in H.
  - by apply updateProtectionFromField_untouched in H.
Qed.

Lemma editing_untouched actions : forall st st',
  editing st actions = Some st' -> untouched (protection st) (protection st').
Proof.
  induction actions as [| a rest IH]; intros st st' H; cbn [editing] in H.
  - injection H as <-. auto with editor.
  - bind_step H. eapply untouched_trans; [| by apply IH].
    destruct a as [k | row text]; cbn [act] in Hbind.
    + destruct (handleKey st k) as [[st1 event] |] eqn:Hkey; [| done].
      injection Hbind as <-. by apply handleKey_untouched in Hkey as [? _].
    + by apply onInput_untouched in Hbind.
Qed.

(** ** The read-only fields of a live configuration *)

Lemma setProtection_copies ed live ed' :
  setProtection ed (Some live) = Some ed' -> getProtection ed' = live.
Proof.
  unfold setProtection, getProtection. intros H.
  apply renderFields_protection in H. by rewrite H.
Qed.

Lemma live_only_not_editable f : In f live_only_fields -> ~ In f editable_keys.
Proof.
  cbn. intros [<- | [<- | [<- | []]]] H;
    repeat (destruct H as [H | H]; [discriminate H |]); done.
Qed.

Lemma cleanInput_keys p :
  map fst (cleanInput p) =
  [ "required_pull_request_reviews"; "required_status_checks"; "enforce_admins";
    "required_linear_history"; "allow_force_pushes"; "allow_deletions";
    "block_creations"; "required_conversation_resolution"; "restrictions" ].
Proof. reflexivity. Qed.

(** In the session the configuration confirmed in the editor, now the
    proposed one, has the three read-only fields of the live one. *)
Lemma confirmed_config_has_live_only_fields :
  exists st p,
    session_previewing = Some st /\
    App.proposedProtection st = Some p /\
    get "url" p
      = JStr "https://api.github.com/repos/acme/one/branches/main/protection" /\
    get "required_signatures" p = JObj [ ("enabled", JBool true) ] /\
    get "lock_branch" p = JBool false /\
    forallb (fun f => has f p) live_only_fields = true.
Proof.
  eexists. eexists. split; [by vm_compute |]. split; [reflexivity |].
  by vm_compute.
Qed.

(** C3, amended.  Seeding the editor from a live configuration copies
    every field of it, the read-only ones included.  No key press and no
    input touches those fields, so the configuration handed out on confirm
    has them exactly as the live configuration had them.  They are absent
    only from the record that is submitted. *)
Theorem seeded_editor_keeps_live_only_fields :
  (forall ed live ed',
     setProtection ed (Some live) = Some ed' -> getProtection ed' = live) /\
  (forall ed live ed' actions final k after p,
     setProtection ed (Some live) = Some ed' ->
     editing ed' actions = Some final ->
     handleKey final k = Some (after, Some (onSave p)) ->
     forall f, In f live_only_fields ->
       get f p = get f live /\ has f p = has f live) /\
  (forall p f, In f live_only_fields -> has f (cleanInput p) = false).
Proof.
  split; [exact setProtection_copies |]. split.
  - intros ed live ed' actions final k after p Hseed Hedit Hkey f Hf.
    apply setProtection_copies in Hseed. unfold getProtection in Hseed.
    apply editing_untouched in Hedit. rewrite Hseed in Hedit.
    apply handleKey_untouched in Hkey as [_ Hsave].
    rewrite (Hsave p eq_refl).
    by apply Hedit, live_only_not_editable.
  - intros p f. cbn. by intros [<- | [<- | [<- | []]]].
Qed.

Lemma seeded_editor_keeps_live_only_fields_witness :
  get "url" (protection seeded_and_edited) = get "url" seed_live /\
  has "url" (protection seeded_and_edited) = has "url" seed_live.
Proof.
  refine (proj1 (proj2 seeded_editor_keeps_live_only_fields)
            default_editor seed_live seeded
            [KeyPressed (mkKey "return" false false); Typed 9 "2"]
            seeded_and_edited (mkKey "a" false true) seeded_and_edited
            (protection seeded_and_edited) _ _ _ "url" _).
  - reflexivity.
  - reflexivity.
  - reflexivity.
  - cbn. tauto.
Defined.

(** The same two facts at the level of the application: the editor that
    [showEditor] opens holds a copy of the live configuration (the default
    one when the branch is unprotected), and a key press in the editor
    either leaves the proposed configuration as it is or makes the
    configuration of the editor the proposed one. *)
Section EditorScreen.

Variable World : Type.
Variable getRepoBranches :
World -> string -> string -> World * App.Fetch (list App.Branch).
Variable getRepoWorkflows : World -> string -> string -> World * list Workflow.

Lemma showEditor_seeds w st w' st' :
App.showEditor World getRepoWorkflows w st = (w', st', None) ->
exists ed,
  App.component st' = App.ProtectionEditor ed /\
  protection ed = default createDefaultProtection (App.currentProtection st).
Proof.
unfold App.showEditor.
destruct (createProtectionEditor ≫= _) as [ed |] eqn:Hseed; [| done].
destruct (App.selectedRepos st) as [| first rest]; [done |].
destruct (getRepoWorkflows w (owner_login first) (name first)) as [w1 ws].
intros [= _ <-]. eexists. split; [reflexivity |].
destruct createProtectionEditor as [ed0 |]; [| done].
cbn [mbind option_bind] in Hseed. unfold setProtection in Hseed.
apply renderFields_protection in Hseed. cbn in Hseed.
destruct (setRepoInfo ed _ _ ws) as [ed2 |] eqn:Hinfo.
- unfold setRepoInfo in Hinfo. apply renderFields_protection in Hinfo.
  rewrite Hinfo. cbn. rewrite Hseed. by destruct (App.currentProtection st).
- rewrite Hseed. by destruct (App.currentProtection st).
Qed.

Lemma editorKey_proposedProtection w st ed k w' st' :
App.editorKey World getRepoBranches w st ed k = Some (w', st') ->
App.proposedProtection st' = App.proposedProtection st \/
App.proposedProtection st' = Some (protection ed).
Proof.
unfold App.editorKey.
set (st0 := if ctrl k && is_key k "s" && _ then st else _).
assert (App.proposedProtection st0 = App.proposedProtection st) as H0
  by (subst st0; by repeat destruct (_ && _)).
destruct (handleKey ed k) as [[ed' event] |] eqn:Hkey; [| done].
cbn [mbind option_bind].
set (st1 := match App.component st0 with
            | App.ProtectionEditor _ => _
            | _ => st0
            end).
assert (App.proposedProtection st1 = App.proposedProtection st) as H1
  by (subst st1; by destruct (App.component st0)).
destruct event as [[p |] |].
- apply handleKey_untouched in Hkey as [_ Hsave].
  rewrite (Hsave p eq_refl). intros [= _ <-]. by right.
- intros [= Hback]. left. rewrite <- H1.
  pose proof (showBranchSelector_selections World getRepoBranches w st1) as Hs.
  rewrite Hback in Hs. cbn [snd] in Hs. unfold selections in Hs. congruence.
- intros [= _ <-]. by left.
Qed.

End EditorScreen.


(** * More properties *)

(** ** The diff, in general *)

Lemma differ_same (a : option string) : differ a a = false.
Proof. destruct a as [x |]; [| done]. cbn. by rewrite String.eqb_refl. Qed.

(** The loop sorts every key by the three tests. *)
Lemma fold_diff_key current proposed keys : forall d,
  fold_left (diff_key current proposed) keys d =
  mkDiff (added d ++ List.filter (is_added current proposed) keys)
    (removed d ++ List.filter (is_removed current proposed) keys)
    (changed d ++ List.filter (is_changed current proposed) keys).
Proof.
  induction keys as [| key rest IH]; intros d; cbn [fold_left List.filter].
  - rewrite !app_nil_r. by destruct d.
  - rewrite IH. unfold diff_key, is_added, is_removed, is_changed.
    destruct (String.eqb key "url"); cbn [negb andb]; [done |].
    destruct (is_undefined (currentVal current key)) eqn:Hc,
      (is_undefined (get key proposed)) eqn:Hp; cbn [negb andb added removed changed].
    + destruct (currentVal current key), (get key proposed); try discriminate.
      by cbn.
    + by rewrite <- app_assoc.
    + by rewrite <- app_assoc.
    + destruct (differ _ _); cbn [added removed changed]; [| done].
      by rewrite <- app_assoc.
Qed.

Lemma diffProtection_filters current proposed :
  diffProtection current proposed =
  mkDiff (List.filter (is_added current proposed) (diff_keys current proposed))
    (List.filter (is_removed current proposed) (diff_keys current proposed))
    (List.filter (is_changed current proposed) (diff_keys current proposed)).
Proof. unfold diffProtection. by rewrite fold_diff_key. Qed.

Lemma filter_none {A} (f : A -> bool) (l : list A) :
  (forall x, In x l -> f x = false) -> List.filter f l = [].
Proof.
  induction l as [| x rest IH]; intros H; [done |]. cbn.
  rewrite (H x (or_introl eq_refl)). apply IH. intros y Hy. apply H. by right.
Qed.

(** The set built from a list has the elements of the list, each once. *)
Lemma set_add_fold l : forall acc x,
  In x (fold_left set_add l acc) <-> In x acc \/ In x l.
Proof.
  induction l as [| y rest IH]; intros acc x; cbn [fold_left].
  - cbn. tauto.
  - rewrite IH. unfold set_add.
    destruct (existsb (String.eqb y) acc) eqn:Hy.
    + apply existsb_exists in Hy as [z [Hz Heq]].
      apply String.eqb_eq in Heq. subst z. cbn. intuition (subst; auto).
    + rewrite in_app_iff. cbn. tauto.
Qed.

Lemma set_add_fold_NoDup l : forall acc,
  NoDup acc -> NoDup (fold_left set_add l acc).
Proof.
  induction l as [| y rest IH]; intros acc Hacc; cbn [fold_left]; [done |].
  apply IH. unfold set_add.
  destruct (existsb (String.eqb y) acc) eqn:Hy; [done |].
  apply NoDup_app. split; [done |]. split; [| apply NoDup_singleton].
  intros x Hx Hin. apply list_elem_of_In in Hx.
  apply list_elem_of_In in Hin. cbn in Hin. destruct Hin as [<- | []].
  assert (existsb (String.eqb y) acc = true) as Ht
    by (apply existsb_exists; exists y; split; [done | apply String.eqb_refl]).
  congruence.
Qed.

Lemma Set_of_In l x : In x (Set_of l) <-> In x l.
Proof. unfold Set_of. rewrite set_add_fold. cbn. tauto. Qed.

Lemma Set_of_NoDup l : NoDup (Set_of l).
Proof. apply set_add_fold_NoDup. constructor. Qed.

Lemma NoDup_List_filter {A} (f : A -> bool) (l : list A) :
  NoDup l -> NoDup (List.filter f l).
Proof.
  induction 1 as [| x rest Hx Hrest IH]; cbn; [constructor |].
  destruct (f x); [| done]. constructor; [| done].
  rewrite list_elem_of_In, filter_In. rewrite list_elem_of_In in Hx. tauto.
Qed.

(** X1.  The diff of a configuration with itself is empty. *)
Theorem diffProtection_same_is_empty :
  forall c : JSObject, diffProtection (Some c) c = mkDiff [] [] [].
Proof.
  intros c. rewrite diffProtection_filters.
  rewrite !filter_none; [done | | |]; intros key _;
    unfold is_changed, is_removed, is_added; cbn [currentVal];
    destruct (String.eqb key "url"); cbn [negb andb]; try done.
  - rewrite differ_same. by rewrite !andb_false_r.
  - by destruct (is_undefined (get key c)).
  - by destruct (is_undefined (get key c)).
Qed.

(** X2.  Against an unprotected branch (no live configuration) nothing is
    removed and nothing is changed: the added keys are the keys of the
    proposed configuration, other than [url], that have a value. *)
Theorem diffProtection_unprotected_only_adds :
  forall (proposed : JSObject),
    removed (diffProtection None proposed) = [] /\
    changed (diffProtection None proposed) = [] /\
    forall key,
      In key (added (diffProtection None proposed)) <->
      key <> "url" /\ get key proposed <> JUndefined.
Proof.
  intros proposed. rewrite diffProtection_filters. cbn [added removed changed].
  split; [| split].
  - apply filter_none. intros key _. unfold is_removed. cbn.
    by rewrite andb_false_r.
  - apply filter_none. intros key _. unfold is_changed. cbn.
    by rewrite andb_false_r.
  - intros key. rewrite filter_In. unfold is_added, diff_keys. cbn [currentVal].
    rewrite Set_of_In, in_app_iff. unfold Object_keys. rewrite !Set_of_In.
    cbn [is_undefined map In]. rewrite andb_true_r.
    destruct (String.eqb_spec key "url") as [-> | Hne]; cbn [negb andb].
    + split; [by intros [_ ?] | by intros [? _]].
    + split.
      * intros [_ H]. split; [done |]. by destruct (get key proposed).
      * intros [_ H]. split; [| by destruct (get key proposed)].
        right. clear Hne. induction proposed as [| [k v] rest IH]; [done |].
        cbn [get map fst In] in *.
        destruct (String.eqb_spec k key); [by left | right; by apply IH].
Qed.

(** X3.  No key is reported twice, neither within a list nor in two
    lists, and [url] is never reported. *)
Theorem diffProtection_reports_each_key_once :
  forall (current : option JSObject) (proposed : JSObject),
    NoDup (added (diffProtection current proposed)
           ++ removed (diffProtection current proposed)
           ++ changed (diffProtection current proposed)) /\
    ~ In "url" (added (diffProtection current proposed)
                ++ removed (diffProtection current proposed)
                ++ changed (diffProtection current proposed)).
Proof.
  intros current proposed. rewrite diffProtection_filters.
  cbn [added removed changed].
  assert (NoDup (diff_keys current proposed)) as Hkeys by apply Set_of_NoDup.
  split.
  - apply NoDup_app. split; [by apply NoDup_List_filter |]. split.
    + intros key Ha Hrc. apply list_elem_of_In in Ha.
      apply list_elem_of_In in Hrc. rewrite in_app_iff in Hrc.
      rewrite !filter_In in *. destruct Ha as [_ Ha].
      unfold is_added, is_removed, is_changed in *.
      destruct (String.eqb key "url"), (is_undefined (currentVal current key)),
        (is_undefined (get key proposed)); cbn in *; intuition discriminate.
    + apply NoDup_app. split; [by apply NoDup_List_filter |].
      split; [| by apply NoDup_List_filter].
      intros key Hr Hc. apply list_elem_of_In in Hr.
      apply list_elem_of_In in Hc. rewrite !filter_In in *.
      destruct Hr as [_ Hr]. destruct Hc as [_ Hc].
      unfold is_removed, is_changed in *.
      destruct (String.eqb key "url"), (is_undefined (currentVal current key)),
        (is_undefined (get key proposed)); cbn in *; discriminate.
  - rewrite !in_app_iff, !filter_In.
    unfold is_added, is_removed, is_changed. cbn. intuition discriminate.
Qed.

(** ** The remote calls *)

(** X4.  How [getBranchProtection] ends, by how [ghApi] ends: a failure
    whose message mentions [404] or [Not Found] is an unprotected branch
    ([null]); any other failure is thrown again as it is; a record is
    normalised; a response without a body is not an unprotected branch but
    a TypeError. *)
Theorem getBranchProtection_outcomes :
  forall (World : Type) (ghApi : World -> Request -> World * ApiOutcome)
         (w w' : World) (owner repo branch : string) (outcome : ApiOutcome),
    ghApi w (GetProtection owner repo branch) = (w', outcome) ->
    (forall e,
       outcome = Threw e ->
       (String_includes "404" (message_of e "")
        || String_includes "Not Found" (message_of e "") = true ->
        getBranchProtection World ghApi w owner repo branch = (w', Normal None)) /\
       (String_includes "404" (message_of e "")
        || String_includes "Not Found" (message_of e "") = false ->
        getBranchProtection World ghApi w owner repo branch = (w', Throw e))) /\
    (forall raw,
       outcome = Returned (JObj raw) ->
       exists live,
         transformProtectionResponse (JObj raw) = Normal live /\
         getBranchProtection World ghApi w owner repo branch
           = (w', Normal (Some live))) /\
    (outcome = Returned JNull ->
     getBranchProtection World ghApi w owner repo branch = (w', Throw TypeError)).
Proof.
  intros World ghApi w w' owner repo branch outcome Hcall.
  unfold getBranchProtection. rewrite Hcall. split; [| split].
  - intros e ->. unfold not_found_or_rethrow. split; by intros ->.
  - intros raw ->. eexists. split; [apply transformProtectionResponse_object |].
    by rewrite transformProtectionResponse_object.
  - by intros ->.
Qed.

Lemma getBranchProtection_outcomes_witness :
  getBranchProtection unit
    (fun w _ => (w, Threw (ErrorObject "gh: Branch not protected (HTTP 404)")))
    tt "acme" "one" "main" = (tt, Normal None).
Proof.
  apply (proj1 (proj1 (getBranchProtection_outcomes unit
           (fun w _ => (w, Threw (ErrorObject "gh: Branch not protected (HTTP 404)")))
           tt tt "acme" "one" "main" _ eq_refl) _ eq_refl)).
  reflexivity.
Defined.

(** X5.  The submitted record is complete and stable: none of its nine
    values is [undefined] (an absent substructure is an explicit [null]),
    and building the record from the record gives the same record. *)
Theorem cleanInput_complete_and_stable :
  forall p : JSObject,
    Forall (fun entry => snd entry <> JUndefined) (cleanInput p) /\
    cleanInput (cleanInput p) = cleanInput p.
Proof.
  intros p. split.
  - unfold cleanInput, coalesce.
    repeat (constructor;
            [cbn [snd];
             match goal with
             | |- context [get ?k p] => by destruct (get k p)
             end |]).
    constructor.
  - unfold cleanInput at 1. cbn [cleanInput get String.eqb Ascii.eqb Bool.eqb].
    unfold cleanInput, coalesce.
    repeat f_equal;
      match goal with
      | |- context [get ?k p] => by destruct (get k p)
      end.
Qed.

(** ** The field list of the editor *)

Lemma with_fields_same st : with_fields st (fields st) = st.
Proof. by destruct st. Qed.

Lemma renderFields_in_sync st st' : renderFields st = Some st' -> in_sync st'.
Proof.
  unfold renderFields, in_sync. destruct (buildFields st) as [fs |] eqn:Hfs;
    [| done]. intros [= <-]. exact Hfs.
Qed.

Lemma in_sync_renderFields st : in_sync st -> renderFields st = Some st.
Proof.
  unfold in_sync, renderFields. intros ->. cbn. by rewrite with_fields_same.
Qed.

Lemma addWorkflowChecks_in_sync st names st' :
  addWorkflowChecks st names = Some st' -> in_sync st'.
Proof.
  unfold addWorkflowChecks. intros H. bind_step H.
  by apply renderFields_in_sync in H.
Qed.

Lemma handleKey_in_sync st k st' event :
  handleKey st k = Some (st', event) -> in_sync st -> in_sync st'.
Proof.
  unfold handleKey. intros H Hsync.
  destruct (modalShown st).
  - destruct (is_key k "escape").
    { bind_step H. injection H as <- _. by apply renderFields_in_sync in Hbind. }
    destruct (is_key k "up" || is_key k "k"); [by injection H as <- _ |].
    destruct (is_key k "down" || is_key k "j"); [by injection H as <- _ |].
    destruct (is_key k "space").
    { by destruct (_ !! _); injection H as <- _. }
    destruct (is_key k "return" || is_key k "enter");
      [| by injection H as <- _].
    bind_step H. injection H as <- _.
    destruct (Nat.ltb 0 _).
    + by apply addWorkflowChecks_in_sync in Hbind.
    + by apply renderFields_in_sync in Hbind.
  - destruct (ctrl k && is_key k "a"); [by injection H as <- _ |].
    destruct (is_key k "tab").
    { bind_step H. injection H as <- _. by apply renderFields_in_sync in Hbind. }
    destruct (is_key k "return" || is_key k "enter").
    { destruct (fields st !! focusIndex st) as [field |];
        [| by injection H as <- _].
      destruct (String.eqb (key field) "apply"); [by injection H as <- _ |].
      destruct (type field).
      - bind_step H. bind_step H. injection H as <- _.
        by apply renderFields_in_sync in Hbind0.
      - by injection H as <- _.
      - by injection H as <- _.
      - bind_step H. injection H as <- _.
        unfold showWorkflowModal in Hbind.
        destruct (Nat.eqb _ 0); [by injection Hbind as <- |].
        bind_step Hbind. by injection Hbind as <-. }
    destruct (is_key k "escape"); [by injection H as <- _ |].
    destruct (is_key k "up" || is_key k "k").
    { bind_step H. injection H as <- _. by apply renderFields_in_sync in Hbind. }
    destruct (is_key k "down" || is_key k "j").
    { bind_step H. injection H as <- _. by apply renderFields_in_sync in Hbind. }
    by injection H as <- _.
Qed.

(** X6.  Key presses keep the field list up to date: if the field list is
    the one built from the configuration before a key press, it is so
    after it, whatever the key did; and the editor starts that way. *)
Theorem handleKey_keeps_fields_up_to_date :
  (forall st, createProtectionEditor = Some st -> in_sync st) /\
  (forall st k st' event,
     in_sync st -> handleKey st k = Some (st', event) -> in_sync st').
Proof.
  split.
  - intros st H. by apply renderFields_in_sync in H.
  - intros st k st' event Hsync H. by eapply handleKey_in_sync.
Qed.

Lemma handleKey_keeps_fields_up_to_date_witness :
  in_sync
    (with_fields (with_focusIndex default_editor 1) (fields default_editor)).
Proof.
  apply (proj2 handleKey_keeps_fields_up_to_date default_editor
           (mkKey "down" false false) _ None).
  - reflexivity.
  - reflexivity.
Defined.

Lemma buildFields_keys st fs :
  buildFields st = Some fs -> map key fs = field_keys st.
Proof.
  unfold buildFields, field_keys. intros Hfs.
  destruct (truthy (get checks_key (protection st)));
    [destruct (contexts_text (get checks_key (protection st))) as [text |] |];
    cbn [mbind option_bind] in Hfs; try discriminate Hfs;
    injection Hfs as <-;
    destruct (truthy (get reviews_key (protection st)));
    try destruct (Nat.ltb 0 (length (workflows st)));
    reflexivity.
Qed.

Lemma field_keys_NoDup st : NoDup (field_keys st).
Proof.
  unfold field_keys.
  destruct (truthy (get reviews_key (protection st))),
    (truthy (get checks_key (protection st))),
    (Nat.ltb 0 (length (workflows st)));
    apply (bool_decide_unpack _); by vm_compute.
Qed.

(** X7.  The field list has a fixed order (the six toggles, the block of
    the reviews, the block of the status checks, the divider, the apply
    row), at least nine rows and at most sixteen, and no two rows with the
    same key; the apply row is the last one. *)
Theorem buildFields_order :
  forall st fs,
    buildFields st = Some fs ->
    map key fs = field_keys st /\
    NoDup (map key fs) /\
    9 <= length fs <= 16 /\
    last (map key fs) = Some "apply".
Proof.
  intros st fs Hfs. apply buildFields_keys in Hfs as Hkeys.
  split; [done |]. split; [rewrite Hkeys; apply field_keys_NoDup |].
  rewrite <- (length_map key fs), Hkeys. unfold field_keys.
  destruct (truthy (get reviews_key (protection st))),
    (truthy (get checks_key (protection st))),
    (Nat.ltb 0 (length (workflows st))); cbn; split; (lia || done).
Qed.

Lemma buildFields_order_witness :
  map key (fields default_editor) = field_keys default_editor.
Proof.
  exact (proj1 (buildFields_order default_editor (fields default_editor) eq_refl)).
Defined.

(** ** The text of the contexts *)

Lemma split_loop_no_comma (s : string) : forall cur t,
  no_comma s = true -> split_loop cur (s +:+ t) = split_loop (cur +:+ s) t.
Proof.
  induction s as [| c s IH]; intros cur t Hs.
  - by rewrite string_app_nil_r.
  - cbn [no_comma] in Hs. apply andb_prop in Hs as [Hc Hs].
    apply negb_true_iff in Hc. rewrite string_app_cons. cbn [split_loop].
    rewrite Hc. rewrite IH by done. by rewrite string_app_assoc.
Qed.

(** Splitting the joined text gives the pieces back, each but the first
    with the space that follows the comma. *)
Lemma split_loop_join (rest : list string) : forall cur first,
  Forall (fun n => no_comma n = true) (first :: rest) ->
  split_loop cur (join_strings ", " (first :: rest)) =
  (cur +:+ first) :: map (fun n => " " +:+ n) rest.
Proof.
  induction rest as [| second rest IH]; intros cur first Hall.
  - apply Forall_cons in Hall as [Hfirst _]. cbn [join_strings map].
    rewrite <- (string_app_nil_r first) at 1.
    by rewrite split_loop_no_comma.
  - apply Forall_cons in Hall as [Hfirst Hrest].
    change (join_strings ", " (first :: second :: rest))
      with (first +:+ ", " +:+ join_strings ", " (second :: rest)).
    rewrite split_loop_no_comma by done.
    rewrite !string_app_cons, string_app_nil_l.
    cbn [split_loop Ascii.eqb Bool.eqb]. f_equal.
    rewrite string_app_nil_l. by rewrite (IH " " second Hrest).
Qed.

Lemma trim_after_space (n : string) : trim (" " +:+ n) = trim n.
Proof. reflexivity. Qed.

Lemma Array_join_strings sep (names : list string) :
  Array_join sep (map JStr names) = join_strings sep names.
Proof.
  unfold Array_join. rewrite map_map. cbn [nullish toString].
  by rewrite map_id.
Qed.

Lemma clean_names_trimmed (l : list string) :
  Forall clean_name l -> map trim l = l.
Proof.
  induction 1 as [| n l [_ [_ Hn]] _ IH]; [done |]. cbn [map]. by rewrite Hn, IH.
Qed.

Lemma clean_names_kept (l : list string) :
  Forall clean_name l ->
  List.filter (fun s => negb (String.eqb s "")) l = l.
Proof.
  induction 1 as [| n l [Hn _] _ IH]; [done |]. cbn [List.filter].
  destruct (String.eqb_spec n ""); [done |]. cbn [negb]. by rewrite IH.
Qed.

Lemma clean_names_no_comma (l : list string) :
  Forall clean_name l -> Forall (fun n => no_comma n = true) l.
Proof.
  intros H. eapply Forall_impl; [exact H |]. by intros n [_ [Hn _]].
Qed.

(** Reading the text that shows a list of clean names gives the names. *)
Lemma parse_shown_contexts (names : list string) :
  Forall clean_name names ->
  List.filter (fun s => negb (String.eqb s ""))
    (map trim (split_comma (join_strings ", " names))) = names.
Proof.
  intros Hall. destruct names as [| first rest]; [done |].
  unfold split_comma.
  rewrite split_loop_join by by apply clean_names_no_comma.
  rewrite string_app_nil_l. cbn [map]. rewrite map_map.
  rewrite (map_ext _ trim) by (intros n; apply trim_after_space).
  change (trim first :: map trim rest) with (map trim (first :: rest)).
  rewrite clean_names_trimmed by done. by apply clean_names_kept.
Qed.

(** X8.  The text field of the contexts reads back what it shows: typing
    the comma-separated text of a list of check names (none empty, none
    with a comma or with white space at an end) sets the contexts to
    exactly these names, in order, and leaves the rest of the
    configuration as it is. *)
Theorem contexts_text_reads_back :
  forall (st : EditorState) (i : nat) (f : EditorField) (o : JSObject)
         (names : list string),
    fields st !! i = Some f ->
    type f = string_type ->
    key f = "contexts" ->
    parent f = Some checks_key ->
    get checks_key (protection st) = JObj o ->
    Forall clean_name names ->
    exists st',
      onInput st i (Array_join ", " (map JStr names)) = Some st' /\
      status_contexts (protection st') = Some (map JStr names) /\
      forall k, k <> checks_key ->
        get k (protection st') = get k (protection st).
Proof.
  intros st i f o names Hf Htype Hkey Hparent Ho Hnames.
  unfold onInput. rewrite Hf, Htype.
  unfold updateProtectionFromField, parent_is.
  cbn [parent with_value key value protection with_fields].
  rewrite Hparent, Hkey.
  cbn [String.eqb Ascii.eqb Bool.eqb reviews_key checks_key].
  change "required_status_checks" with checks_key.
  rewrite Ho. cbn [truthy].
  rewrite Array_join_strings, parse_shown_contexts by done.
  unfold assign_nested. rewrite Ho. cbn [mbind option_bind].
  eexists. split; [reflexivity |]. split.
  - unfold status_contexts. cbn [protection with_protection].
    by rewrite !get_set_eq.
  - intros k Hk. cbn [protection with_protection].
    by rewrite get_set_ne.
Qed.

Lemma contexts_text_reads_back_witness :
  exists st',
    onInput
      (default default_editor (setProtection default_editor (Some picker_config)))
      12 "ci/build, ci/test" = Some st' /\
    status_contexts (protection st') = Some [ JStr "ci/build"; JStr "ci/test" ].
Proof.
  destruct (contexts_text_reads_back
              (default default_editor
                 (setProtection default_editor (Some picker_config)))
              12
              (mkField "contexts" "  Status checks (comma-sep)" string_type
                 (JStr "ci/build") (Some checks_key))
              [ ("strict", JBool false); ("contexts", JArr [JStr "ci/build"]) ]
              [ "ci/build"; "ci/test" ])
    as [st' [Hinput [Hctx _]]].
  - reflexivity.
  - reflexivity.
  - reflexivity.
  - reflexivity.
  - reflexivity.
  - repeat constructor; discriminate.
  - exists st'. split; [exact Hinput | exact Hctx].
Defined.

(** ** Switching the reviews off and on *)

Lemma buildFields_row_6 st fs :
  buildFields st = Some fs ->
  fs !! 6 =
  Some (mkField "rpr_enabled" "PR Reviews Enabled" boolean
          (JBool (truthy (get reviews_key (protection st)))) (Some reviews_key)).
Proof.
  unfold buildFields. intros Hfs.
  destruct (truthy (get checks_key (protection st)));
    [destruct (contexts_text (get checks_key (protection st))) as [text |] |];
    cbn [mbind option_bind] in Hfs; try discriminate Hfs;
    injection Hfs as <-;
    by destruct (truthy (get reviews_key (protection st))).
Qed.

(** Whether the field list can be built depends on the status checks
    alone. *)
Lemma buildFields_is_Some st st' :
  get checks_key (protection st') = get checks_key (protection st) ->
  is_Some (buildFields st) -> is_Some (buildFields st').
Proof.
  unfold buildFields. intros ->.
  destruct (truthy (get checks_key (protection st)));
    [destruct (contexts_text (get checks_key (protection st))) |]; done.
Qed.

Lemma set_set key v1 v2 (o : JSObject) : set key v2 (set key v1 o) = set key v2 o.
Proof.
  induction o as [| [k w] rest IH]; cbn [set].
  - by rewrite String.eqb_refl.
  - destruct (String.eqb_spec k key) as [-> | Hne]; cbn [set].
    + by rewrite String.eqb_refl.
    + destruct (String.eqb_spec k key); [done |]. by rewrite IH.
Qed.

Lemma updateProtectionFromField_reviews_switch st f :
  key f = "rpr_enabled" ->
  parent f = Some reviews_key ->
  updateProtectionFromField st f =
  renderFields
    (with_protection st
       (set reviews_key (if truthy (value f) then default_reviews else JNull)
          (protection st))).
Proof.
  intros Hkey Hparent. unfold updateProtectionFromField, parent_is.
  by rewrite Hparent, Hkey.
Qed.

(** The enter key on the row of the reviews switch. *)
Lemma handleKey_reviews_switch st k :
  in_sync st ->
  modalShown st = false ->
  focusIndex st = 6 ->
  key_name k = "return" \/ key_name k = "enter" ->
  exists st',
    handleKey st k = Some (st', None) /\
    protection st' =
      set reviews_key
        (if truthy (get reviews_key (protection st)) then JNull
         else default_reviews)
        (protection st) /\
    in_sync st' /\ modalShown st' = false /\ focusIndex st' = 6.
Proof.
  intros Hsync Hmodal Hfocus Hk.
  pose proof (buildFields_row_6 st _ Hsync) as Hrow.
  unfold handleKey. rewrite Hmodal.
  assert ((ctrl k && is_key k "a") = false /\ is_key k "tab" = false /\
          (is_key k "return" || is_key k "enter") = true)
    as [-> [-> ->]]
    by (unfold is_key; destruct Hk as [-> | ->]; cbn; by rewrite ?andb_false_r).
  rewrite Hfocus, Hrow.
  cbn [key type String.eqb Ascii.eqb Bool.eqb].
  rewrite updateProtectionFromField_reviews_switch by done.
  cbn [value with_value truthy protection with_fields].
  match goal with
  | |- context [renderFields ?s] => set (st0 := s)
  end.
  assert (is_Some (buildFields st0)) as [fs Hfs].
  { apply (buildFields_is_Some st); [| by rewrite Hsync].
    subst st0. cbn [protection with_protection]. by apply get_set_ne. }
  assert (renderFields st0 = Some (with_fields st0 fs)) as ->
    by (unfold renderFields; by rewrite Hfs).
  cbn [mbind option_bind].
  assert (renderFields (with_fields st0 fs) = Some (with_fields st0 fs)) as ->.
  { unfold renderFields.
    change (buildFields (with_fields st0 fs)) with (buildFields st0).
    by rewrite Hfs. }
  cbn [mbind option_bind]. eexists. split; [reflexivity |].
  split; [| split; [| split]].
  - subst st0. cbn [protection with_fields with_protection].
    by destruct (truthy (get reviews_key (protection st))).
  - exact Hfs.
  - subst st0. by cbn.
  - subst st0. by cbn.
Qed.

(** X9.  Switching the reviews off discards their settings, and switching
    them on again installs the defaults (no stale review dismissal, no code
    owner review, one approval), not the settings they had; nothing else in
    the configuration changes. *)
Theorem reviews_off_and_on_gives_defaults :
  forall (st : EditorState) (k : Key),
    in_sync st ->
    modalShown st = false ->
    focusIndex st = 6 ->
    truthy (get reviews_key (protection st)) = true ->
    key_name k = "return" \/ key_name k = "enter" ->
    exists st1 st2,
      handleKey st k = Some (st1, None) /\
      get reviews_key (protection st1) = JNull /\
      handleKey st1 k = Some (st2, None) /\
      protection st2 = set reviews_key default_reviews (protection st).
Proof.
  intros st k Hsync Hmodal Hfocus Hon Hk.
  destruct (handleKey_reviews_switch st k Hsync Hmodal Hfocus Hk)
    as [st1 [Hkey1 [Hp1 [Hsync1 [Hmodal1 Hfocus1]]]]].
  destruct (handleKey_reviews_switch st1 k Hsync1 Hmodal1 Hfocus1 Hk)
    as [st2 [Hkey2 [Hp2 _]]].
  rewrite Hon in Hp1.
  exists st1, st2. split; [done |]. split; [by rewrite Hp1, get_set_eq |].
  split; [done |]. rewrite Hp2, Hp1, get_set_eq. cbn [truthy].
  apply set_set.
Qed.

Lemma reviews_off_and_on_witness :
  exists st1 st2,
    handleKey (with_focusIndex (default default_editor (onInput default_editor 9 "3")) 6)
      (mkKey "return" false false) = Some (st1, None) /\
    get reviews_key (protection st1) = JNull /\
    handleKey st1 (mkKey "return" false false) = Some (st2, None) /\
    protection st2 = createDefaultProtection.
Proof.
  destruct (reviews_off_and_on_gives_defaults
              (with_focusIndex
                 (default default_editor (onInput default_editor 9 "3")) 6)
              (mkKey "return" false false))
    as [st1 [st2 [H1 [H2 [H3 H4]]]]].
  - reflexivity.
  - reflexivity.
  - reflexivity.
  - reflexivity.
  - by left.
  - exists st1, st2. split; [exact H1 |]. split; [exact H2 |].
    split; [exact H3 |]. rewrite H4. reflexivity.
Defined.

(** ** The keys of the workflow picker *)

(** X10.  While the picker is open no key hands out or cancels the
    configuration, and only the confirm key can change it; the escape key
    closes the picker and leaves the editor as it was before the picker
    was opened, whatever was selected in between. *)
Theorem picker_keys_leave_configuration :
  forall (st : EditorState) (k : Key),
    modalShown st = true ->
    (forall st' event,
       handleKey st k = Some (st', event) ->
       event = None /\
       (is_key k "return" || is_key k "enter" = false ->
        protection st' = protection st)) /\
    (in_sync st -> key_name k = "escape" ->
     handleKey st k =
     Some (with_modal st false (workflowItems st) (workflowFocusIndex st), None)).
Proof.
  intros st k Hmodal. split.
  - intros st' event H. unfold handleKey in H. rewrite Hmodal in H.
    destruct (is_key k "escape").
    { bind_step H. injection H as <- <-.
      apply renderFields_protection in Hbind. by rewrite Hbind. }
    destruct (is_key k "up" || is_key k "k"); [by injection H as <- <- |].
    destruct (is_key k "down" || is_key k "j"); [by injection H as <- <- |].
    destruct (is_key k "space").
    { by destruct (_ !! _); injection H as <- <-. }
    destruct (is_key k "return" || is_key k "enter");
      [| by injection H as <- <-].
    bind_step H. by injection H as <- <-.
  - intros Hsync Hk. unfold handleKey, is_key. rewrite Hmodal, Hk.
    cbn [String.eqb Ascii.eqb Bool.eqb].
    rewrite in_sync_renderFields; [done |]. exact Hsync.
Qed.

Lemma picker_keys_witness :
  handleKey (default default_editor picker_opened) (mkKey "escape" false false)
  = Some (with_modal (default default_editor picker_opened) false
            (workflowItems (default default_editor picker_opened))
            (workflowFocusIndex (default default_editor picker_opened)), None).
Proof.
  apply (proj2 (picker_keys_leave_configuration
                  (default default_editor picker_opened)
                  (mkKey "escape" false false) eq_refl)).
  - reflexivity.
  - reflexivity.
Defined.

(** ** Moving the focus *)

Lemma focus_down_up (i n : nat) :
  i < n -> (((i + 1) mod n) + n - 1) mod n = i.
Proof.
  intros Hi. destruct (decide (i + 1 = n)) as [<- | Hne].
  - rewrite Nat.Div0.mod_same. replace (0 + (i + 1) - 1) with i by lia.
    apply Nat.mod_small. lia.
  - rewrite (Nat.mod_small (i + 1)) by lia.
    replace (i + 1 + n - 1) with (i + 1 * n) by lia.
    rewrite Nat.Div0.mod_add. apply Nat.mod_small. lia.
Qed.

(** The up and down keys: the focus moves, then the rows are built
    again. *)
Lemma handleKey_move st fs k (down : bool) :
  buildFields st = Some fs ->
  modalShown st = false ->
  key_name k = (if down then "down" else "up") ->
  handleKey st k =
  Some (with_fields
          (with_focusIndex st
             (if down then (focusIndex st + 1) mod length (fields st)
              else (focusIndex st + length (fields st) - 1)
                   mod length (fields st)))
          fs,
        None).
Proof.
  intros Hfs Hmodal Hk. unfold handleKey, is_key.
  rewrite Hmodal, Hk.
  destruct down; cbn [String.eqb Ascii.eqb Bool.eqb orb];
    rewrite andb_false_r; unfold renderFields;
    match goal with
    | |- context [buildFields ?s] => change (buildFields s) with (buildFields st)
    end; by rewrite Hfs.
Qed.

(** X11.  The focus moves in a circle over the rows: one row down and one
    row up again is where it started, also from the last row (from which
    down leads to the first), and the configuration is as before.  The
    rows are built again on the way: when they were the rows of the
    configuration already (as they are after every key press) the editor
    is exactly as before; when a text was typed into the row of the
    contexts, the typed text in that row gives way to the contexts as
    [buildFields] shows them.  The rows on screen are assumed to be as
    many as the configuration gives. *)
Theorem focus_down_then_up :
  forall (st : EditorState) (fs : list EditorField) (down up : Key),
    buildFields st = Some fs ->
    length fs = length (fields st) ->
    modalShown st = false ->
    focusIndex st < length (fields st) ->
    key_name down = "down" ->
    key_name up = "up" ->
    exists st1,
      handleKey st down = Some (st1, None) /\
      focusIndex st1 = (focusIndex st + 1) mod length (fields st) /\
      handleKey st1 up = Some (with_fields st fs, None) /\
      (in_sync st -> with_fields st fs = st).
Proof.
  intros st fs down up Hfs Hlen Hmodal Hfocus Hd Hu.
  eexists. split; [by apply (handleKey_move st fs down true) |].
  split; [done |]. split.
  - rewrite (handleKey_move _ fs up false) by done.
    cbn [focusIndex fields with_focusIndex with_fields].
    rewrite Hlen, focus_down_up by done.
    by destruct st.
  - unfold in_sync. rewrite Hfs. intros [= ->]. by destruct st.
Qed.

Lemma focus_down_then_up_witness :
  exists st1,
    handleKey (with_focusIndex default_editor 12) (mkKey "down" false false)
      = Some (st1, None) /\
    focusIndex st1 = 0 /\
    handleKey st1 (mkKey "up" false false)
      = Some (with_focusIndex default_editor 12, None).
Proof.
  destruct (focus_down_then_up (with_focusIndex default_editor 12)
              (fields default_editor)
              (mkKey "down" false false) (mkKey "up" false false))
    as [st1 [H1 [H2 [H3 _]]]].
  - reflexivity.
  - reflexivity.
  - reflexivity.
  - cbn. lia.
  - reflexivity.
  - reflexivity.
  - exists st1. split; [exact H1 |]. split; [exact H2 | exact H3].
Defined.

(** ** An accepted count *)

(** X12.  An input on the count field that [parseInt] reads as a number
    that is not negative is written to the count of the reviews and to the
    row, and to nothing else: the other settings of the reviews and the
    rest of the configuration stay.  The number written is the double that
    [parseInt] gives: the nearest one for digits that write a number from
    [2^53] on, [Infinity] for digits that write a number beyond the
    doubles. *)
Theorem onInput_accepted_count_is_written :
  forall (st : EditorState) (i : nat) (f : EditorField) (o : JSObject)
         (val : string) (num : JSVal),
    fields st !! i = Some f ->
    type f = number ->
    key f = "required_approving_review_count" ->
    parent f = Some reviews_key ->
    get reviews_key (protection st) = JObj o ->
    (exists n, parseInt val = Finite n /\ (0 <= n)%Z /\ num = JNum n) \/
    (parseInt val = Infinite false /\ num = JInfinity) ->
    onInput st i val =
    Some (with_protection
            (with_fields st (<[i := with_value f num]> (fields st)))
            (set reviews_key
               (JObj (set "required_approving_review_count" num o))
               (protection st))).
Proof.
  intros st i f o val num Hf Htype Hkey Hparent Ho Hparse.
  rewrite <- (onInput_count_written st i f o num) by done.
  unfold onInput. rewrite Hf, Htype.
  destruct Hparse as [[n [-> [Hn ->]]] | [-> ->]]; [| done].
  destruct (Z.leb_spec 0 n); [done | lia].
Qed.

Lemma onInput_accepted_count_witness :
  (protection <$> onInput default_editor 9 "9007199254740993")
  = Some (set reviews_key
            (JObj [ ("dismiss_stale_reviews", JBool false);
                    ("require_code_owner_reviews", JBool false);
                    ("required_approving_review_count",
                      JNum 9007199254740992) ])
            createDefaultProtection).
Proof.
  rewrite (onInput_accepted_count_is_written default_editor 9
             (mkField "required_approving_review_count" "  Required approvals"
                number (JNum 1) (Some reviews_key))
             [ ("dismiss_stale_reviews", JBool false);
               ("require_code_owner_reviews", JBool false);
               ("required_approving_review_count", JNum 1) ]
             "9007199254740993" (JNum 9007199254740992)
             eq_refl eq_refl eq_refl eq_refl eq_refl).
  - reflexivity.
  - left. exists 9007199254740992%Z.
    split; [vm_compute; reflexivity | split; [lia | reflexivity]].
Defined.


(** ** The template store, further *)

(** X13.  A template saved is the template loaded, for names that are
    file names: loading the name after a save gives the name, the
    description and the two timestamps of the template that the save
    returned, and every other such name loads as it did before.  (A name
    with path segments is outside the statement: [x/../basic] is the file
    of [basic].) *)
Theorem saveTemplate_then_loadTemplate :
  forall (dir : gmap string File) (name : string) (p : JSObject)
         (desc : option string) (now : string),
    plain_name name = true ->
    (exists loaded,
       loadTemplate (fst (saveTemplate dir name p desc now)) name = Some loaded /\
       template_name loaded = name /\
       description loaded = description (snd (saveTemplate dir name p desc now)) /\
       created_at loaded = created_at (snd (saveTemplate dir name p desc now)) /\
       updated_at loaded = now) /\
    forall other,
      plain_name other = true ->
      other <> name ->
      loadTemplate (fst (saveTemplate dir name p desc now)) other
      = loadTemplate dir other.
Proof.
  intros dir name p desc now _. split.
  - destruct (loadTemplate_saveTemplate dir name p desc now)
      as [written [H1 [H2 [H3 [H4 H5]]]]].
    exists written. by repeat split.
  - intros other _ Hne. by apply loadTemplate_saveTemplate_other.
Qed.

Lemma saveTemplate_then_loadTemplate_witness :
  loadTemplate
    (fst (saveTemplate ∅ "basic" createDefaultProtection None
            "2024-01-01T00:00:00.000Z")) "strict"
  = loadTemplate ∅ "strict".
Proof.
  apply (proj2 (saveTemplate_then_loadTemplate ∅ "basic"
                  createDefaultProtection None "2024-01-01T00:00:00.000Z"
                  eq_refl)).
  - reflexivity.
  - discriminate.
Defined.

(** X14.  Deleting a name that is a file name reports whether there was a
    file, readable or not; afterwards the name loads nothing and every
    other such name loads as before; deleting a name that has no file
    changes nothing. *)
Theorem deleteTemplate_removes_one :
  forall (dir : gmap string File) (name : string),
    plain_name name = true ->
    (snd (deleteTemplate dir name) = true <-> dir !! name <> None) /\
    loadTemplate (fst (deleteTemplate dir name)) name = None /\
    (forall other,
       plain_name other = true ->
       other <> name ->
       loadTemplate (fst (deleteTemplate dir name)) other
       = loadTemplate dir other) /\
    (snd (deleteTemplate dir name) = false -> fst (deleteTemplate dir name) = dir).
Proof.
  intros dir name _. unfold deleteTemplate, loadTemplate.
  destruct (dir !! name) as [file |] eqn:Hfile; cbn [fst snd].
  - split; [done |]. split; [by rewrite lookup_delete_eq |].
    split; [| done]. intros other _ Hne. by rewrite lookup_delete_ne.
  - split; [split; done |]. split; [by rewrite Hfile |]. done.
Qed.

Lemma deleteTemplate_removes_one_witness :
  loadTemplate
    (fst (deleteTemplate
            (fst (saveTemplate ∅ "basic" createDefaultProtection None
                    "2024-01-01T00:00:00.000Z")) "strict")) "basic"
  = loadTemplate
      (fst (saveTemplate ∅ "basic" createDefaultProtection None
              "2024-01-01T00:00:00.000Z")) "basic".
Proof.
  apply (proj1 (proj2 (proj2 (deleteTemplate_removes_one
           (fst (saveTemplate ∅ "basic" createDefaultProtection None
                   "2024-01-01T00:00:00.000Z")) "strict" eq_refl)))).
  - reflexivity.
  - discriminate.
Defined.

Lemma initialize_one_keeps dir entry name t :
  loadTemplate dir name = Some t ->
  loadTemplate (initialize_one dir entry) name = Some t.
Proof.
  destruct entry as [[[n d] p] now]. unfold initialize_one. intros Hload.
  destruct (loadTemplate dir n) as [existing |] eqn:Hn; [done |].
  rewrite loadTemplate_saveTemplate_other; [done |].
  intros ->. congruence.
Qed.

Lemma initialize_fold_keeps entries : forall dir name t,
  loadTemplate dir name = Some t ->
  loadTemplate (fold_left initialize_one entries dir) name = Some t.
Proof.
  induction entries as [| e rest IH]; intros dir name t H; [done |].
  cbn [fold_left]. apply IH. by apply initialize_one_keeps.
Qed.

Lemma initialize_one_present dir n d p now :
  is_Some (loadTemplate (initialize_one dir (n, d, p, now)) n).
Proof.
  unfold initialize_one.
  destruct (loadTemplate dir n) as [existing |] eqn:Hn; [by rewrite Hn |].
  destruct (loadTemplate_saveTemplate dir n p (Some d) now) as [w [-> _]].
  done.
Qed.

Lemma initialize_fold_present entries : forall dir n d p now,
  In (n, d, p, now) entries ->
  is_Some (loadTemplate (fold_left initialize_one entries dir) n).
Proof.
  induction entries as [| e rest IH]; intros dir n d p now Hin; [done |].
  cbn [fold_left]. destruct Hin as [-> | Hin]; [| by eapply IH].
  destruct (initialize_one_present dir n d p now) as [t Ht].
  rewrite (initialize_fold_keeps rest _ n t Ht). done.
Qed.

Lemma initialize_fold_nothing_to_do entries : forall dir,
  (forall e, In e entries -> is_Some (loadTemplate dir (fst (fst (fst e))))) ->
  fold_left initialize_one entries dir = dir.
Proof.
  induction entries as [| e rest IH]; intros dir H; [done |].
  cbn [fold_left].
  assert (initialize_one dir e = dir) as ->.
  { destruct (H e (or_introl eq_refl)) as [t Ht].
    destruct e as [[[n d] p] now]. unfold initialize_one.
    cbn [fst] in Ht. by rewrite Ht. }
  apply IH. intros e' He'. apply H. by right.
Qed.

(** X15.  Writing the default templates never replaces a template that
    can be loaded (one of the three names or any other); afterwards each
    of the three default names can be loaded; and writing them again, at
    any later time, changes nothing. *)
Theorem initializeDefaultTemplates_once :
  forall (dir : gmap string File) (nows later : string * string * string),
    (forall name t,
       loadTemplate dir name = Some t ->
       loadTemplate (initializeDefaultTemplates dir nows) name = Some t) /\
    (forall name,
       In name default_names ->
       is_Some (loadTemplate (initializeDefaultTemplates dir nows) name)) /\
    initializeDefaultTemplates (initializeDefaultTemplates dir nows) later
    = initializeDefaultTemplates dir nows.
Proof.
  intros dir [[now1 now2] now3] [[l1 l2] l3]. unfold initializeDefaultTemplates.
  assert (forall nows name, In name default_names ->
            is_Some (loadTemplate
                       (fold_left initialize_one (default_entries nows) dir) name))
    as Hpresent.
  { intros [[n1 n2] n3] name Hin. cbn in Hin.
    destruct Hin as [<- | [<- | [<- | []]]];
      eapply initialize_fold_present; cbn; eauto. }
  split; [| split].
  - intros name t. apply initialize_fold_keeps.
  - apply Hpresent.
  - apply initialize_fold_nothing_to_do. intros e He.
    apply (Hpresent (now1, now2, now3)).
    cbn in He. destruct He as [<- | [<- | [<- | []]]]; cbn; tauto.
Qed.

Lemma initializeDefaultTemplates_once_witness :
  exists t,
    loadTemplate
      (initializeDefaultTemplates
         (fst (saveTemplate ∅ "basic" [("enforce_admins", JBool true)]
                 (Some "mine") "2023-05-05T00:00:00.000Z"))
         ("2024-01-01T00:00:00.000Z", "2024-01-01T00:00:00.001Z",
          "2024-01-01T00:00:00.002Z")) "basic" = Some t /\
    description t = Some "mine".
Proof.
  eexists. split.
  - apply (proj1 (initializeDefaultTemplates_once
                    (fst (saveTemplate ∅ "basic" [("enforce_admins", JBool true)]
                            (Some "mine") "2023-05-05T00:00:00.000Z"))
                    ("2024-01-01T00:00:00.000Z", "2024-01-01T00:00:00.001Z",
                     "2024-01-01T00:00:00.002Z")
                    ("", "", ""))).
    unfold saveTemplate, loadTemplate. cbn [fst].
    rewrite lookup_insert_eq. reflexivity.
  - reflexivity.
Defined.

(** X16.  The creation time of a template is set once: after any number of
    later saves, under its name or under other names, with any contents and
    descriptions, the template still loads and has the creation time it
    had. *)
Theorem created_at_survives_saves :
  forall (l : list Save) (dir : gmap string File) (name : string) (t : Template),
    loadTemplate dir name = Some t ->
    created_at t <> "" ->
    exists t',
      loadTemplate (saves dir l) name = Some t' /\
      created_at t' = created_at t.
Proof. intros l dir name t. apply saves_keep_created_at. Qed.

Lemma created_at_survives_saves_witness :
  exists t',
    loadTemplate
      (saves
         (fst (saveTemplate ∅ "basic" createDefaultProtection None
                 "2024-01-01T00:00:00.000Z"))
         [ mkSave "strict" createDefaultProtection None "2024-02-02T00:00:00.000Z";
           mkSave "basic" createDefaultProtection (Some "again")
             "2024-03-03T00:00:00.000Z" ])
      "basic" = Some t' /\
    created_at t' = "2024-01-01T00:00:00.000Z".
Proof.
  destruct (created_at_survives_saves
              [ mkSave "strict" createDefaultProtection None
                  "2024-02-02T00:00:00.000Z";
                mkSave "basic" createDefaultProtection (Some "again")
                  "2024-03-03T00:00:00.000Z" ]
              (fst (saveTemplate ∅ "basic" createDefaultProtection None
                      "2024-01-01T00:00:00.000Z"))
              "basic"
              (mkTemplate "basic" None "2024-01-01T00:00:00.000Z"
                 "2024-01-01T00:00:00.000Z" createDefaultProtection))
    as [t' [Hload Hcreated]].
  - unfold saveTemplate, loadTemplate. cbn [fst].
    rewrite lookup_insert_eq. reflexivity.
  - discriminate.
  - exists t'. split; [exact Hload | exact Hcreated].
Defined.

(** ** The selection list of the repositories *)

Lemma toggle_repo_repos items idx :
  map item_repo (toggle_repo items idx) = map item_repo items.
Proof.
  unfold toggle_repo. destruct (items !! idx) as [item |] eqn:Hitem; [| done].
  rewrite list_fmap_insert. cbn [item_repo].
  apply list_insert_id. by rewrite list_lookup_fmap, Hitem.
Qed.

Lemma toggles_repos idxs : forall items,
  map item_repo (fold_left toggle_repo idxs items) = map item_repo items.
Proof.
  induction idxs as [| i rest IH]; intros items; [done |].
  cbn [fold_left]. by rewrite IH, toggle_repo_repos.
Qed.

Lemma selected_sublist (items : list RepoItem) :
  map item_repo (List.filter item_selected items) `sublist_of` map item_repo items.
Proof.
  induction items as [| item rest IH]; [done |]. cbn [List.filter map].
  destruct (item_selected item); cbn [map];
    [by apply sublist_skip | by apply sublist_cons].
Qed.

(** X17.  The repositories handed on by the selection list are never none:
    after any number of toggles they are a sub-list of the fetched
    repositories, in the order of the list, with at least one element;
    before any toggle nothing is handed on; and toggling a row twice
    restores the list. *)
Theorem repo_selection_is_a_nonempty_sublist :
  forall (fetched : list Repository) (idxs : list nat),
    item_selected_handler (setRepos fetched) = None /\
    (forall chosen,
       item_selected_handler (fold_left toggle_repo idxs (setRepos fetched))
         = Some chosen ->
       chosen <> [] /\ chosen `sublist_of` fetched) /\
    (forall items idx, toggle_repo (toggle_repo items idx) idx = items).
Proof.
  intros fetched idxs. split; [| split].
  - unfold item_selected_handler, setRepos.
    assert (List.filter item_selected (map (fun r => mkRepoItem r false) fetched) = [])
      as -> by (by induction fetched).
    done.
  - intros chosen. unfold item_selected_handler.
    assert (map item_repo (fold_left toggle_repo idxs (setRepos fetched)) = fetched)
      as Hrepos.
    { rewrite toggles_repos. unfold setRepos. rewrite map_map. cbn.
      apply map_id. }
    pose proof (selected_sublist (fold_left toggle_repo idxs (setRepos fetched)))
      as Hsub.
    rewrite Hrepos in Hsub.
    destruct (map item_repo (List.filter item_selected _)) as [| r rest];
      [done |].
    cbn [length Nat.ltb Nat.leb]. by intros [= <-].
  - intros items idx. unfold toggle_repo at 2.
    destruct (items !! idx) as [item |] eqn:Hitem.
    + unfold toggle_repo.
      rewrite list_lookup_insert_eq by (by eapply lookup_lt_Some).
      cbn [item_repo item_selected]. rewrite list_insert_insert_eq, negb_involutive.
      apply list_insert_id. by destruct item.
    + unfold toggle_repo. by rewrite Hitem.
Qed.

Lemma repo_selection_witness :
  [ acme_one ] <> [] /\ [ acme_one ] `sublist_of` [ acme_one; acme_one ].
Proof.
  apply (proj1 (proj2 (repo_selection_is_a_nonempty_sublist
                         [ acme_one; acme_one ] [ 1; 0; 1 ]))).
  reflexivity.
Defined.

(** ** The key handlers and the callbacks of the application *)

(** From [H : Some x = Some (w', st')], the state [st'] is [snd x]. *)
Ltac result_of H :=
  match type of H with
  | Some ?x = Some (_, ?s) =>
      let E := fresh "E" in
      assert (s = snd x) as E by (injection H as H; by rewrite H);
      rewrite E; clear E
  end.

Section SessionFacts.

Variable World : Type.
Variable ghApi : World -> Request -> World * ApiOutcome.
Variable getOrganizations : World -> World * App.Fetch (list App.Organization).
Variable getOrgRepos : World -> string -> World * App.Fetch (list Repository).
Variable getRepoBranches :
  World -> string -> string -> World * App.Fetch (list App.Branch).
Variable getRepoWorkflows : World -> string -> string -> World * list Workflow.

Local Abbreviation showOrgSelector := (App.showOrgSelector World getOrganizations).
Local Abbreviation showRepoSelector := (App.showRepoSelector World getOrgRepos).
Local Abbreviation showBranchSelector :=
  (App.showBranchSelector World getRepoBranches).
Local Abbreviation showEditor := (App.showEditor World getRepoWorkflows).
Local Abbreviation keypress :=
  (App.keypress World ghApi getOrganizations getOrgRepos getRepoBranches
     getRepoWorkflows).

Lemma showOrgSelector_selections w st :
  selections (snd (showOrgSelector w st)) = selections st.
Proof.
  unfold App.showOrgSelector. by destruct (getOrganizations w) as [w' [os | e]].
Qed.

(** The selections that only a selection can change. *)
Lemma selections_kept st st' :
  selections st' = selections st ->
  App.org st' = App.org st /\ App.selectedRepos st' = App.selectedRepos st /\
  App.branch st' = App.branch st /\
  App.currentProtection st' = App.currentProtection st /\
  App.proposedProtection st' = App.proposedProtection st /\
  App.results st' = App.results st.
Proof.
  unfold selections. intros H. injection H as H1 H2 H3 H4 H5 H6.
  by repeat split.
Qed.

Lemma editorKey_kept w st ed k w' st' :
  App.editorKey World getRepoBranches w st ed k = Some (w', st') ->
  App.org st' = App.org st /\ App.selectedRepos st' = App.selectedRepos st /\
  App.branch st' = App.branch st.
Proof.
  unfold App.editorKey.
  set (st0 := if ctrl k && is_key k "s" && _ then st else _).
  assert (selections st0 = selections st) as H0
    by (subst st0; by repeat destruct (_ && _)).
  destruct (handleKey ed k) as [[ed' event] |]; [| done].
  cbn [mbind option_bind].
  set (st1 := match App.component st0 with
              | App.ProtectionEditor _ => _
              | _ => st0
              end).
  assert (selections st1 = selections st) as H1
    by (subst st1; by destruct (App.component st0)).
  apply selections_kept in H1 as [Ho [Hr [Hb [Hc [Hp Hres]]]]].
  destruct event as [[p |] |].
  - intros [= _ <-]. unfold App.showPreview. by cbn.
  - intros [= Hback].
    pose proof (showBranchSelector_selections World getRepoBranches w st1) as Hs.
    rewrite Hback in Hs. cbn [snd] in Hs.
    apply selections_kept in Hs as [-> [-> [-> _]]]. done.
  - by intros [= _ <-].
Qed.

Lemma keypress_kept w st k w' st' :
  keypress w st k = Some (w', st') ->
  App.org st' = App.org st /\ App.selectedRepos st' = App.selectedRepos st /\
  App.branch st' = App.branch st.
Proof.
  unfold App.keypress. intros H.
  assert (forall s, selections s = selections st ->
            App.org s = App.org st /\ App.selectedRepos s = App.selectedRepos st /\
            App.branch s = App.branch st) as Hsel
    by (intros s Hs; apply selections_kept in Hs; tauto).
  destruct (App.component st) as [| | | first | ed | | mode].
  - by injection H as _ <-.
  - by injection H as _ <-.
  - destruct (is_key k "escape"); [| by injection H as _ <-].
    result_of H. apply Hsel, showOrgSelector_selections.
  - destruct (is_key k "escape"); [| by injection H as _ <-].
    result_of H. apply Hsel, showRepoSelector_selections.
  - by apply editorKey_kept in H.
  - destruct (is_key k "escape"); [| by injection H as _ <-].
    destruct (App.org st); result_of H; apply Hsel;
      [apply showRepoSelector_selections | apply showOrgSelector_selections].
  - unfold App.previewKey in H.
    destruct (is_key k "return" || is_key k "enter").
    + destruct mode.
      * result_of H. apply Hsel.
        apply (showEditor_selections World getRepoWorkflows w st).
      * unfold App.onPreviewConfirm in H.
        destruct (App.proposedProtection st); [| by injection H as _ <-].
        destruct (App.branch st) as [b |] eqn:Hb; [| done].
        cbn [mbind option_bind] in H.
        destruct (applyProtectionToMultiple _ _ _ _ _) as [w1 rs].
        injection H as _ <-. by cbn.
    + destruct (is_key k "escape"); [| by injection H as _ <-].
      result_of H. apply Hsel.
      apply (showEditor_selections World getRepoWorkflows w st).
Qed.

(** X18.  The key handler that a screen installs ([currentKeyHandler],
    which the [keypress] listener calls) never assigns the organisation,
    the selected repositories or the branch: after going back, cancelling,
    confirming the editor or applying they are what the callbacks of the
    lists stored.  (A selection made with the enter key in a list is the
    work of those callbacks, not of this handler.  The live configuration
    is left out: the editor is seeded with a shallow copy of it and writes
    through the nested objects the two share.) *)
Theorem keypress_keeps_selections :
  forall (w w' : World) (st st' : App.State) (k : Key),
    keypress w st k = Some (w', st') ->
    App.org st' = App.org st /\
    App.selectedRepos st' = App.selectedRepos st /\
    App.branch st' = App.branch st.
Proof. intros w w' st st' k. apply keypress_kept. Qed.

(** X20.  Choosing a branch: when the branch turns out to be unprotected
    the editor opens on the default configuration and no live
    configuration is stored; when the request fails the application stays
    where it is, shows the message and keeps the live configuration it
    had, though the branch name is stored. *)
Theorem onBranchSelected_unprotected_or_failed :
  forall (w : World) (st : App.State) (first : Repository) (b : string),
    App.selectedRepos st <> [] ->
    let st' :=
      snd (App.onBranchSelected World ghApi getRepoWorkflows w st first b) in
    (snd (getBranchProtection World ghApi w (owner_login first) (name first) b)
       = Normal None ->
     App.currentProtection st' = None /\
     App.screen st' = App.on_editor /\
     exists ed,
       App.component st' = App.ProtectionEditor ed /\
       protection ed = createDefaultProtection) /\
    (forall e,
       snd (getBranchProtection World ghApi w (owner_login first) (name first) b)
         = Throw e ->
       App.component st' = App.component st /\
       App.screen st' = App.screen st /\
       App.error st' = Some (message_of e "Failed to load protection") /\
       App.isLoading st' = false /\
       App.currentProtection st' = App.currentProtection st /\
       App.branch st' = Some b).
Proof.
  intros w st first b Hrepos st'. subst st'. unfold App.onBranchSelected.
  destruct (getBranchProtection World ghApi w (owner_login first) (name first) b)
    as [w1 [live | e]]; cbn [snd]; split; try done.
  - intros [= ->].
    match goal with
    | |- context [App.showEditor World getRepoWorkflows w1 ?s] =>
        pose proof (showEditor_selections World getRepoWorkflows w1 s) as Hsel;
        pose proof (showEditor_seeds World getRepoWorkflows w1 s) as Hseed;
        assert (exists w2 st2,
                  App.showEditor World getRepoWorkflows w1 s = (w2, st2, None) /\
                  App.screen st2 = App.on_editor) as [w2 [st2 [Hed Hscreen]]]
    end.
    { unfold App.showEditor. cbn [App.selectedRepos App.currentProtection
        App.hideLoading App.with_currentProtection App.showLoading App.with_branch].
      destruct (App.selectedRepos st) as [| r rest]; [done |].
      assert (is_Some (createProtectionEditor
                       ≫= (fun ed => setProtection ed None))) as [ed ->]
        by (eexists; vm_compute; reflexivity).
      destruct (getRepoWorkflows w1 (owner_login r) (name r)) as [w2 ws].
      by eexists; eexists. }
    rewrite Hed in Hsel |- *. cbn [fst snd] in *.
    destruct (Hseed w2 st2 Hed) as [ed [Hc Hp]].
    apply selections_kept in Hsel as [_ [_ [_ [Hcur _]]]].
    split; [by rewrite Hcur |]. split; [done |]. by exists ed.
  - intros e0 [= ->]. by cbn.
Qed.

End SessionFacts.

Lemma keypress_keeps_selections_witness :
  App.org session_cancelled = App.org session_editing /\
  App.selectedRepos session_cancelled = App.selectedRepos session_editing /\
  App.branch session_cancelled = App.branch session_editing.
Proof.
  apply (keypress_keeps_selections unit session_ghApi session_orgs
           session_repos session_branches session_workflows tt tt
           session_editing session_cancelled (mkKey "escape" false false)).
  vm_compute. reflexivity.
Defined.

Lemma onBranchSelected_unprotected_witness :
  App.currentProtection
    (snd (App.onBranchSelected unit unprotected_ghApi session_workflows tt
            session_at_branches acme_one "main")) = None.
Proof.
  assert (App.selectedRepos session_at_branches <> []) as Hne
    by (vm_compute; discriminate).
  pose proof (onBranchSelected_unprotected_or_failed unit unprotected_ghApi
                session_workflows tt session_at_branches acme_one "main" Hne)
    as H.
  cbv zeta in H. destruct H as [H _].
  destruct H as [H _]; [vm_compute; reflexivity | exact H].
Defined.

(** ** The listing of the proposed settings *)

Lemma no_dollar_app (a b : string) :
  no_dollar (a +:+ b) = no_dollar a && no_dollar b.
Proof.
  induction a as [| c a IH]; [done |].
  rewrite string_app_cons. cbn [no_dollar]. by rewrite IH, andb_assoc.
Qed.

Lemma GetSubstitution_plain (matched before after r : string) :
  no_dollar r = true -> GetSubstitution matched before after r = r.
Proof.
  induction r as [| c r IH]; [done |]. cbn [no_dollar GetSubstitution].
  intros H. apply andb_prop in H as [Hc Hr]. apply negb_true_iff in Hc.
  rewrite Hc. f_equal. by apply IH.
Qed.

Lemma strip_prefix_app (p rest : string) : strip_prefix p (p +:+ rest) = Some rest.
Proof.
  induction p as [| c p IH]; [done |].
  rewrite string_app_cons. cbn [strip_prefix]. by rewrite Ascii.eqb_refl.
Qed.

Lemma split_at_first_prefix (p rest : string) :
  split_at_first p (p +:+ rest) = Some ("", rest).
Proof.
  pose proof (strip_prefix_app p rest) as H.
  destruct (p +:+ rest); cbn [split_at_first]; by rewrite H.
Qed.

Lemma String_replace_prefix (p r rest : string) :
  no_dollar r = true -> String_replace p r (p +:+ rest) = r +:+ rest.
Proof.
  intros Hr. unfold String_replace. rewrite split_at_first_prefix.
  by rewrite GetSubstitution_plain.
Qed.

Lemma formatValue_array (item : JSVal) (items : list JSVal) (indent : string) :
  formatValue (JArr (item :: items)) indent
  = [ indent +:+ "[" ]
    ++ flat_map (fun x => formatValue x (indent +:+ "  ")) (item :: items)
    ++ [ indent +:+ "]" ].
Proof.
  reflexivity.
Qed.

Lemma formatValue_object (entry : string * JSVal) (props : JSObject)
    (indent : string) :
  formatValue (JObj (entry :: props)) indent
  = [ indent +:+ "{" ]
    ++ flat_map (entry_lines indent) (entry :: props)
    ++ [ indent +:+ "}" ].
Proof.
  cbn [formatValue]. destruct entry as [k v].
  apply (f_equal (cons (indent +:+ "{"))), (f_equal (fun l => l ++ [indent +:+ "}"])).
  change (?a :: ?b ++ ?c) with ((a :: b) ++ c). cbn [flat_map]. f_equal.
  induction props as [| [k' v'] l IH]; [done |]. cbn [flat_map]. by rewrite <- IH.
Qed.

Lemma formatValue_nonempty (val : JSVal) (indent : string) :
  exists first more, formatValue val indent = first :: more.
Proof.
  destruct val as [| | b | n | s | [| item items] | [| entry props] |];
    by eexists _, _.
Qed.

(** Induction on a value, through its elements and its properties. *)
Lemma JSVal_nested_ind (P : JSVal -> Prop) :
  P JUndefined -> P JNull -> (forall b, P (JBool b)) ->
  (forall n, P (JNum n)) -> (forall s, P (JStr s)) ->
  (forall items, Forall P items -> P (JArr items)) ->
  (forall props, Forall (fun entry => P (snd entry)) props -> P (JObj props)) ->
  P JInfinity ->
  forall val, P val.
Proof.
  intros Hundefined Hnull Hbool Hnum Hstr Harr Hobj Hinfinity. fix IH 1.
  intros [| | b | n | s | items | props |];
    [exact Hundefined | exact Hnull | apply Hbool | apply Hnum | apply Hstr | |
     | exact Hinfinity].
  - apply Harr. induction items as [| x l IHl]; constructor; [apply IH | exact IHl].
  - apply Hobj.
    induction props as [| [k x] l IHl]; constructor; [apply IH | exact IHl].
Qed.

Lemma indent_twice (indent : string) (lines : list string) :
  map (String.append indent) (map (String.append "  ") lines)
  = map (String.append (indent +:+ "  ")) lines.
Proof.
  rewrite map_map. apply map_ext. intros line. by rewrite string_app_assoc.
Qed.

Lemma formatValue_indent (val : JSVal) :
  forall indent,
    plain_keys val = true -> no_dollar indent = true ->
    formatValue val indent = map (String.append indent) (formatValue val "").
Proof.
  induction val as [| | b | n | s | items IH | props IH |] using JSVal_nested_ind;
    intros indent Hkeys Hindent; try reflexivity.
  - destruct items as [| item items]; [reflexivity |].
    rewrite !formatValue_array, !map_app. f_equal. f_equal.
    cbn [plain_keys] in Hkeys. revert IH Hkeys.
    generalize (item :: items). intros l IH Hkeys.
    induction IH as [| x l Hx _ IHl]; [done |].
    cbn [forallb] in Hkeys. apply andb_prop in Hkeys as [Hkx Hkl].
    cbn [flat_map]. rewrite map_app, <- IHl by done. f_equal.
    rewrite (Hx (indent +:+ "  ")), (Hx ("" +:+ "  ")); try done.
    + by rewrite indent_twice.
    + by rewrite no_dollar_app, Hindent.
  - destruct props as [| entry props]; [reflexivity |].
    rewrite !formatValue_object, !map_app. f_equal. f_equal.
    cbn [plain_keys] in Hkeys. revert IH Hkeys.
    generalize (entry :: props). intros l IH Hkeys.
    induction IH as [| [k v] l Hv _ IHl]; [done |].
    cbn [forallb fst snd] in Hkeys.
    apply andb_prop in Hkeys as [Hk Hkl]. apply andb_prop in Hk as [Hk Hkv].
    cbn [flat_map]. rewrite map_app, <- IHl by done. f_equal.
    cbn [snd] in Hv. unfold entry_lines. cbn [fst snd].
    rewrite (Hv (indent +:+ "  ")), (Hv ("" +:+ "  "));
      [| done | done | done | by rewrite no_dollar_app, Hindent].
    destruct (formatValue_nonempty v "") as [first [more ->]].
    cbn [map tl]. rewrite indent_twice. f_equal.
    rewrite !String_replace_prefix.
    + by rewrite !string_app_assoc.
    + by rewrite !no_dollar_app, Hk.
    + by rewrite !no_dollar_app, Hindent, Hk.
Qed.

(** A key with a dollar sign is read as a pattern of the replacement:
    [$&] stands for the replaced indentation. *)
Lemma formatValue_key_with_pattern :
  formatValue (JObj [ ("$&", JBool true) ]) "" = [ "{"; "    : true"; "}" ].
Proof. reflexivity. Qed.

(** X21.  The listing is indented uniformly: printing a value at an
    indentation is printing it at none and putting the indentation before
    every line, for every value whose keys have no dollar sign (which the
    replacement of the first line of an entry would read as a pattern). *)
Theorem formatValue_indentation :
  forall (val : JSVal) (indent : string),
    plain_keys val = true ->
    no_dollar indent = true ->
    formatValue val indent = map (String.append indent) (formatValue val "").
Proof. intros val indent. apply formatValue_indent. Qed.

Lemma formatValue_indentation_witness :
  formatValue preview_config "    "
  = map (String.append "    ") (formatValue preview_config "").
Proof.
  apply (formatValue_indentation preview_config "    "); reflexivity.
Defined.

(** X22.  An object that is not empty is printed as an opening brace, the
    lines of its entries in order and a closing brace; the lines of an
    entry are those of its value, two spaces further in, with the key and
    a colon put before the first of them. *)
Theorem formatValue_object_layout :
  forall (props : JSObject) (indent : string),
    props <> [] ->
    plain_keys (JObj props) = true ->
    no_dollar indent = true ->
    formatValue (JObj props) indent
    = [ indent +:+ "{" ]
      ++ flat_map
           (fun entry =>
              (indent +:+ "  " +:+ fst entry +:+ ": "
                 +:+ hd "" (formatValue (snd entry) ""))
              :: map (String.append (indent +:+ "  "))
                   (tl (formatValue (snd entry) "")))
           props
      ++ [ indent +:+ "}" ].
Proof.
  intros props indent Hprops Hkeys Hindent.
  destruct props as [| entry props]; [done |]. clear Hprops.
  rewrite formatValue_object. f_equal. f_equal.
  cbn [plain_keys] in Hkeys. revert Hkeys.
  generalize (entry :: props). intros l Hkeys.
  induction l as [| [k v] l IH]; [done |].
  cbn [forallb fst snd] in Hkeys.
  apply andb_prop in Hkeys as [Hk Hkl]. apply andb_prop in Hk as [Hk Hkv].
  cbn [flat_map]. rewrite <- IH by done. f_equal.
  unfold entry_lines. cbn [fst snd].
  rewrite (formatValue_indent v (indent +:+ "  "));
    [| done | by rewrite no_dollar_app, Hindent].
  destruct (formatValue_nonempty v "") as [first [more ->]].
  cbn [map tl hd]. f_equal.
  rewrite String_replace_prefix.
  - by rewrite !string_app_assoc.
  - by rewrite !no_dollar_app, Hindent, Hk.
Qed.

Lemma formatValue_object_layout_witness :
  formatValue preview_config ""
  = [ "{"; "  enforce_admins: true"; "  required_status_checks: {";
      "    strict: true"; "    contexts: ["; "      " +:+ quote "build";
      "      " +:+ quote "test"; "    ]"; "  }"; "  restrictions: null"; "}" ].
Proof.
  unfold preview_config.
  rewrite (formatValue_object_layout _ "");
    [reflexivity | discriminate | reflexivity | reflexivity].
Defined.
